(** * Verification of the SPoRC podcast-corpus toolkit.

    Shallow embedding of the parts of [sporc/episode.py],
    [sporc/parquet_backend.py], [scripts/convert_to_parquet.py] and
    [scripts/build_indexes.py] that the specification talks about:
    sliding windows over turns, turn loading, KWIC concordance, word-audio
    estimation, catalog lookups, the ingest-side id derivation, the
    value coercers and the per-episode metrics builder.

    Python [int] is modelled as [Z]; Python [float] arithmetic is
    modelled exactly, as [Q] (the double rounding is not modelled);
    strings are [string] over ASCII characters. *)

From Stdlib Require Import ZArith QArith Qround Qminmax Ascii String Lia Lqa Sorted.
From stdpp Require Import base list gmap strings.

Open Scope Z_scope.

(** Python exceptions that the modelled code can raise. *)
Inductive py_error :=
  | RuntimeError
  | ValueError
  | NotFoundError
  | IndexError
  | TypeError
  | OverflowError
  | ReError.

(** ** Python list slicing [l[a:b]] with a step of 1. *)

Definition py_norm_index (len i : Z) : Z :=
  if i <? 0 then Z.max 0 (len + i) else Z.min i len.

Definition py_slice {A} (l : list A) (a b : Z) : list A :=
  let len := Z.of_nat (length l) in
  let a' := py_norm_index len a in
  let b' := py_norm_index len b in
  take (Z.to_nat b' - Z.to_nat a') (drop (Z.to_nat a') l).

(** ** [sporc/episode.py]: [TurnWindow] and [Episode.sliding_window] *)

Section SlidingWindow.
Context {Turn : Type}.

Record TurnWindow := mkTurnWindow {
  tw_turns : list Turn;
  window_index : Z;
  tw_start_index : Z;
  tw_end_index : Z;
  total_windows : Z;
  overlap_size : Z
}.

(** [TurnWindow.is_first] *)
Definition is_first (w : TurnWindow) : bool := window_index w =? 0.

(** [TurnWindow.new_turns] *)
Definition new_turns (w : TurnWindow) : list Turn :=
  if (0 <? overlap_size w) && negb (is_first w)
  then py_slice (tw_turns w) (overlap_size w) (Z.of_nat (length (tw_turns w)))
  else tw_turns w.

(** The body of the generator loop of [Episode.sliding_window]: the window
    with index [k], for the range [s, e) and [tw] windows in total. *)
Definition sw_make_window (turns : list Turn) (s e window_size overlap tw k : Z)
    : TurnWindow :=
  let step_size := window_size - overlap in
  let window_start := s + k * step_size in
  let window_end := Z.min (window_start + window_size) e in
  mkTurnWindow (py_slice turns window_start window_end)
    k window_start window_end tw (if 0 <? k then overlap else 0).

(** [Episode.sliding_window]: the generator is modelled by the list of the
    windows it yields, or by the exception it raises when it is first
    resumed.  [turns_loaded] is the episode's [_turns_loaded] flag and
    [turns] its [_turns] list. *)
Definition sliding_window (turns_loaded : bool) (turns : list Turn)
    (window_size overlap : Z) (start_index end_index : option Z)
    : py_error + list TurnWindow :=
  if negb turns_loaded then inl RuntimeError
  else if window_size <=? overlap then inl ValueError
  else if window_size <=? 0 then inl ValueError
  else if overlap <? 0 then inl ValueError
  else
    let n := Z.of_nat (length turns) in
    let s := match start_index with None => 0 | Some i => i end in
    let e := match end_index with None => n | Some i => i end in
    if (s <? 0) || (n <=? s) then inl ValueError
    else if (n <? e) || (e <=? s) then inl ValueError
    else
      let step_size := window_size - overlap in
      let total_turns := e - s in
      if total_turns <=? 0 then inr []
      else
        let tw := if total_turns <=? window_size then 1
                  else (total_turns - window_size) / step_size + 1 in
        inr (map (sw_make_window turns s e window_size overlap tw)
                 (map Z.of_nat (seq 0 (Z.to_nat tw)))).

End SlidingWindow.

(** Number of leading turns that the new turns of the windows cover:
    the last window ends at [window_size + (total_windows - 1) * step]. *)
Definition sw_covered (n window_size overlap : Z) : Z :=
  if n <=? window_size then n
  else window_size + (n - window_size) / (window_size - overlap)
                     * (window_size - overlap).

(** Specification-side number of windows, as the specification words it:
    [ceil((n - w) / (w - v)) + 1], or 1 when [n <= w]. *)
Definition spec_window_count (n w v : Z) : Z :=
  if n <=? w then 1 else Qceiling (inject_Z (n - w) / inject_Z (w - v)) + 1.

(** ** Python string primitives over ASCII text *)

(** [str.isspace] on one ASCII character: space, \t \n \v \f \r and the
    separators \x1c .. \x1f. *)
Definition py_isspace (c : ascii) : bool :=
  let n := nat_of_ascii c in
  (n =? 32)%nat || ((9 <=? n) && (n <=? 13))%nat || ((28 <=? n) && (n <=? 31))%nat.

(** [str.lower] on one ASCII character. *)
Definition py_lower_char (c : ascii) : ascii :=
  let n := nat_of_ascii c in
  if ((65 <=? n) && (n <=? 90))%nat then ascii_of_nat (n + 32) else c.

Definition py_lower (s : string) : string :=
  string_of_list_ascii (map py_lower_char (list_ascii_of_string s)).

(** [str.split()] with no separator: maximal runs of non-space characters. *)
Fixpoint py_split_go (s : list ascii) (cur : list ascii) : list string :=
  match s with
  | [] => match cur with [] => [] | _ => [string_of_list_ascii (rev cur)] end
  | c :: s' =>
      if py_isspace c then
        match cur with
        | [] => py_split_go s' []
        | _ => string_of_list_ascii (rev cur) :: py_split_go s' []
        end
      else py_split_go s' (c :: cur)
  end.

Definition py_split (s : string) : list string :=
  py_split_go (list_ascii_of_string s) [].

(** [sep.join(l)] *)
Fixpoint py_join (sep : string) (l : list string) : string :=
  match l with
  | [] => ""
  | [x] => x
  | x :: l' => x ++ sep ++ py_join sep l'
  end%string.

(** [s[:i]] for [0 <= i]. *)
Definition py_prefix (s : string) (i : nat) : string :=
  string_of_list_ascii (take i (list_ascii_of_string s)).

Fixpoint is_prefix (p l : list ascii) : bool :=
  match p, l with
  | [], _ => true
  | a :: p', b :: l' => Ascii.eqb a b && is_prefix p' l'
  | _ :: _, [] => false
  end.

(** Leftmost position, counted from [i], at which [p] occurs in [l]. *)
Fixpoint find_from (p l : list ascii) (i : nat) : option nat :=
  if is_prefix p l then Some i
  else match l with
       | [] => None
       | _ :: l' => find_from p l' (S i)
       end.

(** [hay.find(needle, start)] for [start >= 0]: the index, or -1. *)
Definition py_find (hay needle : string) (start : nat) : Z :=
  let h := list_ascii_of_string hay in
  if (length h <? start)%nat then -1
  else match find_from (list_ascii_of_string needle) (drop start h) start with
       | Some i => Z.of_nat i
       | None => -1
       end.

(** [re.compile(re.escape(word), re.IGNORECASE).search(text)]: the start of
    the leftmost match of the literal [word], ignoring ASCII case. *)
Definition re_search_icase (word text : string) : option nat :=
  find_from (list_ascii_of_string (py_lower word))
            (list_ascii_of_string (py_lower text)) 0.

(** ** [sporc/parquet_backend.py]: [ParquetBackend.concordance] *)

(** A row of the DuckDB query of [concordance]. *)
Record search_row := mkSearchRow {
  sr_episode_id : string;
  sr_podcast_id : string;
  sr_turn_text : string;
  sr_speaker_role : string;
  sr_speaker_name : string;
  sr_start_time : Q;
  sr_end_time : Q
}.

Record kwic := mkKwic {
  left_context : string;
  keyword : string;
  right_context : string;
  kwic_row : search_row
}.

(** The loop body of [concordance] for one row. *)
Definition kwic_of_row (word : string) (context_words : Z) (row : search_row)
    : option kwic :=
  let text := sr_turn_text row in
  match re_search_icase word text with
  | None => None
  | Some char_pos =>
      let words := py_split text in
      let word_idx0 := Z.of_nat (length (py_split (py_prefix text char_pos))) - 1 in
      let word_idx := if word_idx0 <? 0 then 0 else word_idx0 in
      let kw_word_count := Z.of_nat (length (py_split word)) in
      let left_start := Z.max 0 (word_idx - context_words) in
      let right_end := Z.min (Z.of_nat (length words))
                             (word_idx + kw_word_count + context_words) in
      Some (mkKwic
              (py_join " " (py_slice words left_start word_idx))
              (py_join " " (py_slice words word_idx (word_idx + kw_word_count)))
              (py_join " " (py_slice words (word_idx + kw_word_count) right_end))
              row)
  end.

(** [concordance word context_words] over the rows returned by its DuckDB
    query (turns whose text contains [word] under [ILIKE], filtered by role
    and podcast, at most [limit] of them). *)
Definition concordance (word : string) (context_words : Z) (rows : list search_row)
    : list kwic :=
  omap (kwic_of_row word context_words) rows.

(** The turn of the specification's KWIC scenario. *)
Definition kwic_fox_row : search_row :=
  mkSearchRow "ep1" "pod1" "the quick brown fox jumps over the lazy dog"
    "host" "John" 0 10.

(** ** [sporc/parquet_backend.py]: [ParquetBackend.estimate_word_audio] *)

(** A turn row as returned by [get_turns_for_episode]. *)
Record turn_row := mkTurnRow {
  tr_turn_text : string;
  tr_start_time : Q;
  tr_end_time : Q;
  tr_mp3_url : string
}.

Record audio_estimate := mkAudioEstimate {
  ae_mp3_url : string;
  estimated_start : Q;
  estimated_end : Q;
  ae_turn_start : Q;
  ae_turn_end : Q;
  ae_turn_text : string;
  confidence : Q
}.

(** Python's [round(x, ndigits)]: round half to even at [ndigits]
    decimals (on the exact value). *)
Definition py_round (x : Q) (ndigits : nat) : Q :=
  let scale := (10 ^ Z.of_nat ndigits)%Z in
  let y := (x * inject_Z scale)%Q in
  let f := Qfloor y in
  let r := (y - inject_Z f)%Q in
  let k := if Qlt_le_dec r (1 # 2) then f
           else if Qlt_le_dec (1 # 2) r then (f + 1)%Z
           else if Z.even f then f else (f + 1)%Z in
  (inject_Z k / inject_Z scale)%Q.

(** The inner [while True] loop over the occurrences of [word_lower] in
    [text_lower], from [start_search], with [found_count] occurrences seen
    so far: [inl idx] when occurrence number [occurrence] is at [idx],
    [inr found_count] when the turn has no further occurrence.  [fuel]
    bounds the iterations; [start_search] grows at each one. *)
Fixpoint scan_occurrences (fuel : nat) (text_lower word_lower : string)
    (occurrence : Z) (start_search : nat) (found_count : Z) : nat + Z :=
  match fuel with
  | O => inr found_count
  | S fuel' =>
      let idx := py_find text_lower word_lower start_search in
      if idx =? -1 then inr found_count
      else if found_count =? occurrence then inl (Z.to_nat idx)
      else scan_occurrences fuel' text_lower word_lower occurrence
             (S (Z.to_nat idx)) (found_count + 1)
  end.

(** The estimate for the occurrence at [idx] of a turn. *)
Definition estimate_at (turn : turn_row) (word : string) (idx : nat)
    : option audio_estimate :=
  let text := tr_turn_text turn in
  let turn_start := tr_start_time turn in
  let turn_end := tr_end_time turn in
  let turn_duration := (turn_end - turn_start)%Q in
  if Qle_bool turn_duration 0 || (String.length text =? 0)%nat then None
  else
    let len := inject_Z (Z.of_nat (String.length text)) in
    let char_ratio_start := (inject_Z (Z.of_nat idx) / len)%Q in
    let char_ratio_end := (inject_Z (Z.of_nat (idx + String.length word)) / len)%Q in
    let est_start := (turn_start + char_ratio_start * turn_duration)%Q in
    let est_end := (turn_start + char_ratio_end * turn_duration)%Q in
    let conf := Qmin 1 (10 / Qmax turn_duration 1) in
    Some (mkAudioEstimate (tr_mp3_url turn) (py_round est_start 2)
            (py_round est_end 2) turn_start turn_end text (py_round conf 3)).

(** The [for turn in turns] loop, threading [found_count]. *)
Fixpoint estimate_loop (turns : list turn_row) (word : string)
    (occurrence found_count : Z) : option audio_estimate :=
  match turns with
  | [] => None
  | turn :: rest =>
      let text := tr_turn_text turn in
      match scan_occurrences (S (S (String.length text))) (py_lower text)
              (py_lower word) occurrence 0 found_count with
      | inl idx => estimate_at turn word idx
      | inr found_count' => estimate_loop rest word occurrence found_count'
      end
  end.

(** [estimate_word_audio] on the turn rows of the episode. *)
Definition estimate_word_audio (turns : list turn_row) (word : string)
    (occurrence : Z) : option audio_estimate :=
  match turns with
  | [] => None
  | _ => estimate_loop turns word occurrence 0
  end.

(** Number of positions of [l] (from 0 to [length l]) at which [p]
    occurs; overlapping occurrences are counted. *)
Fixpoint positions_count (p l : list ascii) : nat :=
  (if is_prefix p l then 1 else 0) +
  match l with [] => 0 | _ :: l' => positions_count p l' end.

Definition occurrence_count (needle hay : string) : nat :=
  positions_count (list_ascii_of_string needle) (list_ascii_of_string hay).

(** Case-insensitive occurrences of [word] across the turns. *)
Definition total_occurrences (turns : list turn_row) (word : string) : nat :=
  sum_list (map (fun t => occurrence_count (py_lower word) (py_lower (tr_turn_text t)))
                turns).

(** The turn of the specification's audio-estimation scenario. *)
Definition audio_demo_turn : turn_row :=
  mkTurnRow "aaaa bbbb" 10%Q 20%Q "http://example.com/ep.mp3".

(** Occurrences of [p] in [l] from position [n] on. *)
Definition tail_count (p l : list ascii) (n : nat) : nat :=
  if (length l <? n)%nat then 0 else positions_count p (drop n l).

(** ** [sporc/parquet_backend.py]: catalog indexes and id lookups *)

Section Catalog.
Context {Row : Type}.

(** [{key: i for i, key in enumerate(keys)}]: later keys overwrite earlier
    ones. *)
Fixpoint index_go (keys : list string) (i : nat) (m : gmap string nat)
    : gmap string nat :=
  match keys with
  | [] => m
  | k :: ks => index_go ks (S i) (<[k := i]> m)
  end.

Definition build_index (keys : list string) : gmap string nat :=
  index_go keys 0 ∅.

(** [DataFrame.iloc[idx].to_dict()] *)
Definition row_at (df : list Row) (idx : nat) : py_error + Row :=
  match df !! idx with
  | Some r => inr r
  | None => inl IndexError
  end.

(** [ParquetBackend.get_episode_by_id] *)
Definition get_episode_by_id (episode_df : list Row) (eid_to_idx : gmap string nat)
    (episode_id : string) : py_error + option Row :=
  match eid_to_idx !! episode_id with
  | None => inr None
  | Some idx => match row_at episode_df idx with
                | inr r => inr (Some r)
                | inl e => inl e
                end
  end.

(** [ParquetBackend.get_podcast_by_id] *)
Definition get_podcast_by_id (podcast_df : list Row) (pid_to_idx : gmap string nat)
    (podcast_id : string) : py_error + Row :=
  match pid_to_idx !! podcast_id with
  | None => inl NotFoundError
  | Some idx => row_at podcast_df idx
  end.

(** The indexes built by [ParquetBackend.__init__] from a catalog's id
    column ([episode_id] or [podcast_id]). *)
Definition catalog_index (id_of : Row -> string) (df : list Row) : gmap string nat :=
  build_index (map id_of df).

End Catalog.

(** ** Python values decoded from the JSONL records *)

#[warnings="-register-all"]
Inductive pyval :=
  | PNone
  | PBool (b : bool)
  | PInt (z : Z)
  | PFloat (q : Q)
  | PStr (s : string)
  | PList (l : list pyval)
  | PDict (d : list (string * pyval)).

(** The Python built-ins the ingestion code calls and that are not part of
    this repository: [str()] of a non-string value, [float()] and [int()]
    of a string ([None] for [ValueError]), [json.loads] ([None] for
    [JSONDecodeError]) and [hashlib.md5(...).digest()]. *)
Class PyBuiltins := {
  str_of_nonstring : pyval -> string;
  float_of_string : string -> option Q;
  int_of_string : string -> option Z;
  json_loads : string -> option pyval;
  md5_digest : list Byte.byte -> list Byte.byte
}.

(** The value of key [k] in a dict: with duplicate keys, as [json.loads]
    builds the dict, the last binding counts. *)
Definition py_lookup (d : list (string * pyval)) (k : string) : option pyval :=
  fold_left (fun acc kv => if String.eqb (fst kv) k then Some (snd kv) else acc) d None.

(** [d.get(k, default)] *)
Definition py_get_or (d : list (string * pyval)) (k : string) (default : pyval) : pyval :=
  match py_lookup d k with Some v => v | None => default end.

(** [d.get(k)] *)
Definition py_get (d : list (string * pyval)) (k : string) : pyval :=
  py_get_or d k PNone.

(** Python truthiness. *)
Definition py_truthy (v : pyval) : bool :=
  match v with
  | PNone => false
  | PBool b => b
  | PInt z => negb (z =? 0)
  | PFloat q => negb (Qeq_bool q 0)
  | PStr s => negb (String.eqb s "")
  | PList l => negb (length l =? 0)%nat
  | PDict d => negb (length d =? 0)%nat
  end.

(** [str.lstrip()], [str.rstrip()], [str.strip()] *)
Fixpoint lstrip_chars (l : list ascii) : list ascii :=
  match l with
  | c :: l' => if py_isspace c then lstrip_chars l' else l
  | [] => []
  end.

Definition rstrip_chars (l : list ascii) : list ascii :=
  reverse (lstrip_chars (reverse l)).

Definition py_strip (s : string) : string :=
  string_of_list_ascii (rstrip_chars (lstrip_chars (list_ascii_of_string s))).

Section Coercers.
Context `{PyBuiltins}.

(** [str(v)] *)
Definition py_str (v : pyval) : string :=
  match v with
  | PStr s => s
  | _ => str_of_nonstring v
  end.

(** [float(n)] on an int: the nearest double, ties to even; an int whose
    rounded magnitude reaches [2^1024] raises [OverflowError]. *)
Definition float_of_int (z : Z) : py_error + Q :=
  let a := Z.abs z in
  if a <=? 2 ^ 53 then inr (inject_Z z)
  else
    let s := Z.log2 a - 52 in
    let m := a / 2 ^ s in
    let r := a mod 2 ^ s in
    let half := 2 ^ (s - 1) in
    let m' := if r <? half then m
              else if half <? r then m + 1
              else if Z.even m then m else m + 1 in
    let a' := m' * 2 ^ s in
    if 2 ^ 1024 <=? a' then inl OverflowError else inr (inject_Z (Z.sgn z * a')).

(** [float(v)] *)
Definition py_float (v : pyval) : py_error + Q :=
  match v with
  | PBool b => inr (if b then 1 else 0)%Q
  | PInt z => float_of_int z
  | PFloat q => inr q
  | PStr s => match float_of_string s with Some q => inr q | None => inl ValueError end
  | _ => inl TypeError
  end.

(** [except (ValueError, TypeError): return default] *)
Definition catch_value_type {A} (r : py_error + A) (default : A) : py_error + A :=
  match r with
  | inl ValueError | inl TypeError => inr default
  | _ => r
  end.

(** [int(f)] on a float: truncation toward zero. *)
Definition py_int_of_float (q : Q) : Z := Z.quot (Qnum q) (Zpos (Qden q)).

(** [scripts/convert_to_parquet.py: safe_str] *)
Definition safe_str (val : pyval) (default : string) : string :=
  match val with
  | PNone => default
  | _ => if py_truthy val then py_strip (py_str val) else default
  end.

(** [scripts/convert_to_parquet.py: safe_float]; an [OverflowError] is
    not caught. *)
Definition safe_float (val : pyval) (default : Q) : py_error + Q :=
  match val with
  | PNone => inr default
  | _ => catch_value_type (py_float val) default
  end.

(** [scripts/convert_to_parquet.py: safe_int]: [int(float(val))]. *)
Definition safe_int (val : pyval) (default : Z) : py_error + Z :=
  match val with
  | PNone => inr default
  | _ => catch_value_type (match py_float val with
                           | inl e => inl e
                           | inr f => inr (py_int_of_float f)
                           end) default
  end.





End Coercers.


(** Built-ins for evaluating concrete examples: string inputs never reach
    [str_of_nonstring] or [float_of_string]; [json_loads] only decodes the
    empty array and [md5_digest] is the identity. *)
Definition example_builtins : PyBuiltins := {|
  str_of_nonstring := fun _ => "";
  float_of_string := fun _ => None;
  int_of_string := fun _ => None;
  json_loads := fun s => if String.eqb s "[]" then Some (PList []) else None;
  md5_digest := fun b => b
|}.

(** ** [scripts/convert_to_parquet.py]: ids and the Phase 1 episode pass *)

(** [s.encode("utf-8")] for text whose characters are the code points
    U+0000 .. U+00FF. *)
Definition utf8_encode (s : string) : list Byte.byte :=
  flat_map (fun c =>
              let n := nat_of_ascii c in
              if (n <? 128)%nat then [byte_of_ascii c]
              else [byte_of_ascii (ascii_of_nat (192 + n / 64));
                    byte_of_ascii (ascii_of_nat (128 + n mod 64))])
           (list_ascii_of_string s).

Definition hex_char (n : nat) : ascii :=
  nth n (list_ascii_of_string "0123456789abcdef") "0"%char.

(** [hashlib.md5(...).hexdigest()] from the digest bytes. *)
Definition hexdigest (digest : list Byte.byte) : string :=
  string_of_list_ascii
    (flat_map (fun b => let n := Byte.to_nat b in [hex_char (n / 16); hex_char (n mod 16)])
              digest).

Section Ingest.
Context `{PyBuiltins}.

(** [podcast_id_from_rss] *)
Definition podcast_id_from_rss (rss_url : string) : string :=
  py_prefix (hexdigest (md5_digest (utf8_encode rss_url))) 12.

(** [episode_id_from_mp3] *)
Definition episode_id_from_mp3 (mp3_url : string) : string :=
  py_prefix (hexdigest (md5_digest (utf8_encode mp3_url))) 16.

(** The parts of a [podcast_agg] entry and of a per-podcast episode row of
    [phase1_episodes] that carry ids and URLs. *)
Record podcast_info := mkPodcastInfo {
  pa_podcast_id : string;
  pa_rss_url : string;
  pa_episode_count : Z
}.

Record episode_row := mkEpisodeRow {
  er_episode_id : string;
  er_podcast_id : string;
  er_mp3_url : string;
  er_rss_url : string
}.

Record phase1_state := mkPhase1State {
  seen_mp3urls : gset string;
  podcast_agg : gmap string podcast_info;
  episode_rows : list episode_row
}.

Definition phase1_init : phase1_state := mkPhase1State ∅ ∅ [].

(** One iteration of the [for rec in pbar] loop of [phase1_episodes]. *)
Definition phase1_step (st : phase1_state) (rec : list (string * pyval)) : phase1_state :=
  let mp3url := safe_str (py_get rec "mp3url") "" in
  let rss_url := safe_str (py_get rec "rssUrl") "" in
  if String.eqb mp3url "" || String.eqb rss_url "" then st
  else if bool_decide (mp3url ∈ seen_mp3urls st) then st
  else
    let pid := podcast_id_from_rss rss_url in
    let eid := episode_id_from_mp3 mp3url in
    let info := match podcast_agg st !! pid with
                | Some i => i
                | None => mkPodcastInfo pid rss_url 0
                end in
    mkPhase1State ({[mp3url]} ∪ seen_mp3urls st)
      (<[pid := mkPodcastInfo (pa_podcast_id info) (pa_rss_url info)
                  (pa_episode_count info + 1)]> (podcast_agg st))
      (episode_rows st ++ [mkEpisodeRow eid pid mp3url rss_url]).

Definition phase1_episodes (records : list (list (string * pyval))) : phase1_state :=
  fold_left phase1_step records phase1_init.

Definition ids_consistent (st : phase1_state) : Prop :=
  (forall row, row ∈ episode_rows st ->
     er_podcast_id row = podcast_id_from_rss (er_rss_url row) /\
     er_episode_id row = episode_id_from_mp3 (er_mp3_url row)) /\
  (forall pid info, podcast_agg st !! pid = Some info ->
     pa_podcast_id info = pid /\ pid = podcast_id_from_rss (pa_rss_url info)).

End Ingest.

(** ** [sporc/parquet_backend.py]: [_load_turns_into_episode] *)

Record Turn := mkTurn {
  t_speaker : list pyval;
  t_text : string;
  t_start_time : Q;
  t_end_time : Q;
  t_duration : Q;
  t_turn_count : Z
}.

(** Modelled from the spec: the validation of the [Turn] constructor
    ([sporc/turn.py] is not part of the sources).  The specification
    states [0 <= start_time < end_time] for every turn and that
    constructor failures skip the turn; the repository's tests
    ([test_turn_validation_errors], [test_turn_zero_duration]) fix the
    checks: an empty speaker list, a blank text, a negative start time, an
    end time before the start time or a negative duration raise
    [ValueError]; [end_time = start_time] is accepted. *)
Definition make_turn (speaker : list pyval) (text : string)
    (start_time end_time duration : Q) (turn_count : Z) : py_error + Turn :=
  if (length speaker =? 0)%nat then inl ValueError
  else if String.eqb (py_strip text) "" then inl ValueError
  else if Qlt_le_dec start_time 0 then inl ValueError
  else if Qlt_le_dec end_time start_time then inl ValueError
  else if Qlt_le_dec duration 0 then inl ValueError
  else inr (mkTurn speaker text start_time end_time duration turn_count).

(** Episode state touched by the loader: [duration_seconds], and
    [_turns] with [_turns_loaded] ([None] when not loaded). *)
Record Episode := mkEpisode {
  duration_seconds : Q;
  ep_turns : option (list Turn)
}.

(** Stable insertion by [start_time], after the turns with an equal key:
    [list.sort(key=lambda t: t.start_time)]. *)
Fixpoint insert_by_start (t : Turn) (l : list Turn) : list Turn :=
  match l with
  | [] => [t]
  | u :: l' => if Qlt_le_dec (t_start_time t) (t_start_time u) then t :: u :: l'
               else u :: insert_by_start t l'
  end.

Definition sort_by_start (l : list Turn) : list Turn :=
  fold_left (fun acc t => insert_by_start t acc) l [].

Section TurnLoader.
Context `{PyBuiltins}.

(** [int(v)]: [None] for [ValueError] or [TypeError]. *)
Definition py_int (v : pyval) : option Z :=
  match v with
  | PBool b => Some (if b then 1 else 0)
  | PInt z => Some z
  | PFloat q => Some (py_int_of_float q)
  | PStr s => int_of_string s
  | _ => None
  end.

(** The [speaker] normalisation of the loader. *)
Definition row_speaker (v : pyval) : list pyval :=
  match v with
  | PStr s => [PStr s]
  | PList l => l
  | PDict d => map (fun kv => PStr (fst kv)) d
  | _ => [PStr (py_str v)]
  end.

(** The [for row in turn_rows] loop.  [float()] failures on the times are
    outside the [try] block: the first one aborts the load. *)
Fixpoint load_turn_rows (rows : list (list (string * pyval))) : py_error + list Turn :=
  match rows with
  | [] => inr []
  | row :: rest =>
      let speaker := row_speaker (py_get_or row "speaker" (PList [])) in
      if (length speaker =? 0)%nat then load_turn_rows rest
      else
        let text := py_strip (py_str (py_get_or row "turn_text" (PStr ""))) in
        if String.eqb text "" then load_turn_rows rest
        else
          match py_float (py_get_or row "start_time" (PInt 0)) with
          | inl err => inl err
          | inr start_time =>
          match py_float (py_get_or row "end_time" (PInt 0)) with
          | inl err => inl err
          | inr end_time =>
          match py_float (py_get_or row "duration" (PInt 0)) with
          | inl err => inl err
          | inr duration =>
              if Qle_bool end_time start_time then load_turn_rows rest
              else
                let attempt :=
                  match py_int (py_get_or row "turn_count" (PInt 0)) with
                  | None => inl ValueError
                  | Some tc => make_turn speaker text start_time end_time duration tc
                  end in
                match attempt with
                | inl _ => load_turn_rows rest
                | inr turn =>
                    match load_turn_rows rest with
                    | inl e => inl e
                    | inr turns => inr (turn :: turns)
                    end
                end
          end end end
  end.

(** [_load_turns_into_episode] on the rows read for the episode. *)
Definition load_turns_into_episode (episode : Episode)
    (turn_rows : list (list (string * pyval))) : py_error + Episode :=
  match ep_turns episode with
  | Some _ => inr episode
  | None =>
      match load_turn_rows turn_rows with
      | inl e => inl e
      | inr turns => inr (mkEpisode (duration_seconds episode) (Some (sort_by_start turns)))
      end
  end.

End TurnLoader.

Definition turn_times_ok (t : Turn) : Prop :=
  (0 <= t_start_time t /\ t_start_time t < t_end_time t)%Q.

(** A stored turn of an episode of 100 seconds, from 0 to [end_time]. *)
Definition late_turn_row (end_time : Q) : list (string * pyval) :=
  [("speaker", PStr "A"); ("turn_text", PStr "hello");
   ("start_time", PInt 0); ("end_time", PFloat end_time);
   ("duration", PFloat end_time); ("turn_count", PInt 0)].

Definition episode_100 : Episode := mkEpisode 100 None.

(** ** [scripts/build_indexes.py]: [unique_speaker_count] of
    [build_episode_and_turn_metrics] *)

(** The columns of a [text.parquet] row that bear on the count: the
    builder reads [episode_id] and [turn_count]; the [speaker] column
    written by phase 2 is not read. *)
Record text_row := mkTextRow {
  txt_episode_id : string;
  txt_speaker : list string;
  txt_turn_count : option Z
}.

(** [ep_rows[eids[i]].append(i)] on a [defaultdict(list)]; keys keep the
    order of their first insertion. *)
Fixpoint ep_rows_append (eid : string) (i : nat) (acc : list (string * list nat))
    : list (string * list nat) :=
  match acc with
  | [] => [(eid, [i])]
  | (k, idxs) :: rest =>
      if String.eqb k eid then (k, idxs ++ [i]) :: rest
      else (k, idxs) :: ep_rows_append eid i rest
  end.

Definition group_ep_rows (rows : list text_row) : list (string * list nat) :=
  fold_left (fun acc i =>
      match rows !! i with
      | Some r => ep_rows_append (txt_episode_id r) i acc
      | None => acc
      end)
    (seq 0 (length rows)) [].

(** [tc = int(turn_counts[idx]) if turn_counts[idx] is not None else 0] *)
Definition row_tc (rows : list text_row) (idx : nat) : Z :=
  match rows !! idx with
  | Some r => match txt_turn_count r with Some z => z | None => 0 end
  | None => 0
  end.

(** [speakers_seen.add(tc)] for every index of the episode, then
    [len(speakers_seen)].  The loop visits the indices sorted by start
    time; a set does not depend on that order. *)
Definition unique_speaker_count (rows : list text_row) (indices : list nat) : Z :=
  Z.of_nat (size (list_to_set (map (row_tc rows) indices) : gset Z)).

(** [ep_metrics[eid]["unique_speaker_count"]] for each episode of a
    partition, in the order of [ep_rows.items()]. *)
Definition episode_unique_speaker_counts (rows : list text_row) : list (string * Z) :=
  map (fun p => (fst p, unique_speaker_count rows (snd p))) (group_ep_rows rows).

(** The number of distinct speakers among the turns of episode [eid]. *)
Definition distinct_speakers (rows : list text_row) (eid : string) : Z :=
  Z.of_nat (size (list_to_set
    (concat (map txt_speaker (filter (fun r => String.eqb (txt_episode_id r) eid) rows)))
    : gset string)).

(** Three turns of one episode, all by speaker ["A"], with the turn
    counters 0, 1 and 2 that phase 2 stores. *)
Definition one_speaker_rows : list text_row :=
  [mkTextRow "e1" ["A"] (Some 0); mkTextRow "e1" ["A"] (Some 1);
   mkTextRow "e1" ["A"] (Some 2)].

Definition respeak (f : text_row -> list string) (r : text_row) : text_row :=
  mkTextRow (txt_episode_id r) (f r) (txt_turn_count r).

(** ** [sporc/episode.py]: more of [TurnWindow] and [Episode] *)

Section TurnWindowMore.
Context {T : Type}.

(** [TurnWindow.is_last] *)
Definition is_last (w : @TurnWindow T) : bool := window_index w =? total_windows w - 1.

(** [TurnWindow.overlap_turns]: [self.turns[:self.overlap_size]]. *)
Definition overlap_turns (w : @TurnWindow T) : list T :=
  if (0 <? overlap_size w) && negb (is_first w)
  then py_slice (tw_turns w) 0 (overlap_size w)
  else [].

(** [TurnWindow.size] *)
Definition tw_size (w : @TurnWindow T) : Z := Z.of_nat (length (tw_turns w)).

(** The statistics dictionary of [Episode.get_window_statistics]. *)
Record window_statistics := mkWindowStatistics {
  ws_total_turns : Z;
  ws_window_size : Z;
  ws_overlap : Z;
  ws_step_size : Z;
  ws_total_windows : Z;
  ws_avg_window_duration : Q;
  ws_total_duration : Q;
  ws_avg_turn_duration : Q
}.

(** [Episode.get_window_statistics]; [turn_duration] reads [turn.duration]
    and [sum] starts from [0]. *)
Definition get_window_statistics (turn_duration : T -> Q) (turns_loaded : bool)
    (turns : list T) (window_size overlap : Z) : py_error + window_statistics :=
  if negb turns_loaded then inl RuntimeError
  else if window_size <=? overlap then inl ValueError
  else
    let total_turns := Z.of_nat (length turns) in
    let step_size := window_size - overlap in
    let total_windows := Z.max 1 ((total_turns - window_size) / step_size + 1) in
    let total_duration := fold_left Qplus (map turn_duration turns) 0%Q in
    let avg_turn_duration :=
      if 0 <? total_turns then (total_duration / inject_Z total_turns)%Q else 0%Q in
    let avg_window_duration := (avg_turn_duration * inject_Z window_size)%Q in
    inr (mkWindowStatistics total_turns window_size overlap step_size total_windows
           avg_window_duration total_duration avg_turn_duration).

(** [speaker_counts[k] = speaker_counts.get(k, 0) + 1] *)
Definition dist_incr (m : gmap string Z) (k : string) : gmap string Z :=
  <[k := match m !! k with Some c => c | None => 0 end + 1]> m.

(** [turn.inferred_speaker_role or "unknown"] *)
Definition role_key (role : option string) : string :=
  match role with
  | Some r => if String.eqb r "" then "unknown" else r
  | None => "unknown"
  end.

(** [TurnWindow.get_speaker_distribution], and the speaker distribution of
    [Episode.get_turn_statistics]: [speaker_of] reads [turn.speaker]. *)
Definition get_speaker_distribution (speaker_of : T -> list string) (turns : list T)
    : gmap string Z :=
  fold_left (fun m t => fold_left dist_incr (speaker_of t) m) turns ∅.

(** [TurnWindow.get_role_distribution], and the role distribution of
    [Episode.get_turn_statistics]: [role_of] reads
    [turn.inferred_speaker_role]. *)
Definition get_role_distribution (role_of : T -> option string) (turns : list T)
    : gmap string Z :=
  fold_left (fun m t => dist_incr m (role_key (role_of t))) turns ∅.

End TurnWindowMore.

(** [TimeRangeBehavior] *)
Inductive TimeRangeBehavior := STRICT | INCLUDE_PARTIAL | INCLUDE_FULL_TURNS.

(** A list comprehension [[x for x in l if p(x)]] whose condition can
    raise: the first exception aborts it. *)
Fixpoint filter_err {A} (p : A -> py_error + bool) (l : list A) : py_error + list A :=
  match l with
  | [] => inr []
  | x :: l' =>
      match p x with
      | inl e => inl e
      | inr b =>
          match filter_err p l' with
          | inl e => inl e
          | inr r => inr (if b then x :: r else r)
          end
      end
  end.

Section TimeRange.
(** [Turn.overlaps_with] ([sporc/turn.py] is not part of the sources). *)
Variable overlaps_with : Turn -> Turn -> bool.

(** [Episode.get_turns_by_time_range] on the episode's turns. *)
Definition get_turns_by_time_range (episode : Episode) (start_time end_time : Q)
    (behavior : TimeRangeBehavior) : py_error + list Turn :=
  match ep_turns episode with
  | None => inl RuntimeError
  | Some turns =>
      let start_time := if Qlt_le_dec start_time 0 then 0%Q else start_time in
      let end_time := if Qlt_le_dec (duration_seconds episode) end_time
                      then duration_seconds episode else end_time in
      match behavior with
      | STRICT =>
          inr (List.filter (fun t => Qle_bool start_time (t_start_time t) &&
                                Qle_bool (t_end_time t) end_time) turns)
      | INCLUDE_PARTIAL =>
          filter_err (fun t =>
              match make_turn [PStr "dummy"] "dummy text for overlap checking"
                      start_time end_time (end_time - start_time) 0 with
              | inl e => inl e
              | inr dummy => inr (overlaps_with t dummy)
              end) turns
      | INCLUDE_FULL_TURNS =>
          inr (List.filter (fun t => negb (Qle_bool end_time (t_start_time t)) &&
                                negb (Qle_bool (t_end_time t) start_time)) turns)
      end
  end.

End TimeRange.

(** ** [sporc/parquet_backend.py]: more catalog lookups and partition reads *)

(** Exceptions of the lookups below that are not [py_error]s. *)
Inductive py_exc :=
  | PyErr (e : py_error)
  | KeyError
  | IndexNotBuiltError.

(** [d[k] = v] on a Python dict kept as its items in insertion order: an
    existing key keeps its place. *)
Fixpoint py_dict_set {V} (d : list (string * V)) (k : string) (v : V) : list (string * V) :=
  match d with
  | [] => [(k, v)]
  | (k', v') :: d' => if String.eqb k' k then (k', v) :: d' else (k', v') :: py_dict_set d' k v
  end.

(** [d.get(k)] *)
Fixpoint py_dict_get {V} (d : list (string * V)) (k : string) : option V :=
  match d with
  | [] => None
  | (k', v') :: d' => if String.eqb k' k then Some v' else py_dict_get d' k
  end.

(** [needle in hay] on strings. *)
Definition py_contains (needle hay : string) : bool :=
  match find_from (list_ascii_of_string needle) (list_ascii_of_string hay) 0 with
  | Some _ => true
  | None => false
  end.

Section CatalogMore.
Context {Row : Type}.

(** [self._pid_to_ep_idxs.setdefault(pid, []).append(i)] over the
    [podcast_id] column of the episode catalog. *)
Fixpoint pid_ep_idxs_go (pids : list string) (i : nat) (m : gmap string (list nat))
    : gmap string (list nat) :=
  match pids with
  | [] => m
  | pid :: rest =>
      pid_ep_idxs_go rest (S i)
        (<[pid := match m !! pid with Some l => l | None => [] end ++ [i]]> m)
  end.

Definition build_pid_to_ep_idxs (pids : list string) : gmap string (list nat) :=
  pid_ep_idxs_go pids 0 ∅.

(** [[f(x) for x in l]] where [f] can raise. *)
Fixpoint map_err {A B E} (f : A -> E + B) (l : list A) : E + list B :=
  match l with
  | [] => inr []
  | x :: l' =>
      match f x with
      | inl e => inl e
      | inr y => match map_err f l' with inl e => inl e | inr ys => inr (y :: ys) end
      end
  end.

(** [ParquetBackend.get_episodes_for_podcast] with
    [include_transcript=False]: the catalog rows at
    [self._pid_to_ep_idxs.get(podcast_id, [])]. *)
Definition get_episodes_for_podcast (episode_df : list Row)
    (pid_to_ep_idxs : gmap string (list nat)) (podcast_id : string) : py_error + list Row :=
  let ep_idxs := match pid_to_ep_idxs !! podcast_id with Some l => l | None => [] end in
  map_err (row_at episode_df) ep_idxs.

(** [self._title_lower_to_pid = {title.lower(): pid for pid, title in ...}]
    over the podcast catalog. *)
Definition title_lower_index (pid_of title_of : Row -> string) (podcast_df : list Row)
    : list (string * string) :=
  fold_left (fun d r => py_dict_set d (py_lower (title_of r)) (pid_of r)) podcast_df [].

(** [ParquetBackend.get_podcast_by_name] *)
Definition get_podcast_by_name (podcast_df : list Row) (pid_to_idx : gmap string nat)
    (title_lower_to_pid : list (string * string)) (name : string) : py_exc + Row :=
  let name_lower := py_lower name in
  let row_of_pid pid :=
    match pid_to_idx !! pid with
    | None => inl KeyError
    | Some idx => match row_at podcast_df idx with
                  | inl e => inl (PyErr e)
                  | inr r => inr r
                  end
    end in
  match py_dict_get title_lower_to_pid name_lower with
  | Some pid => row_of_pid pid
  | None =>
      match List.find (fun kv => py_contains name_lower (fst kv)) title_lower_to_pid with
      | Some (_, pid) => row_of_pid pid
      | None => inl (PyErr NotFoundError)
      end
  end.

End CatalogMore.

(** [d.setdefault(k, set()).add(v)] *)
Definition setdefault_add (d : list (string * gset string)) (k v : string)
    : list (string * gset string) :=
  py_dict_set d k ({[v]} ∪ match py_dict_get d k with Some s => s | None => ∅ end).

(** [self._category_to_pids] and [self._hostname_to_pids], from the
    [(category, podcast_id)] rows of [category_index.parquet] and the
    [(hostname, podcast_id)] rows of [hostname_index.parquet]. *)
Definition build_set_index (rows : list (string * string)) : list (string * gset string) :=
  fold_left (fun d kv => setdefault_add d (fst kv) (snd kv)) rows [].

(** [ParquetBackend.get_podcasts_by_hostname]; the order of [list(set)]
    is not modelled: the result is the set. *)
Definition get_podcasts_by_hostname (hostname_to_pids : list (string * gset string))
    (hostname : string) : gset string :=
  match py_dict_get hostname_to_pids hostname with Some s => s | None => ∅ end.

(** [ParquetBackend.get_podcasts_by_category]: the set of the first
    category, in insertion order, equal to [category] up to case. *)
Definition get_podcasts_by_category (category_to_pids : list (string * gset string))
    (category : string) : gset string :=
  let cat_lower := py_lower category in
  match List.find (fun kv => String.eqb (py_lower (fst kv)) cat_lower) category_to_pids with
  | Some (_, pids) => pids
  | None => ∅
  end.

Section PartitionReads.
Context {Row : Type}.
Variable episode_of : Row -> string.

(** A stable sort by [key] ([pyarrow.compute.sort_indices], ascending, is
    stable): insertion after the rows with a key [<=]. *)
Fixpoint insert_by_key (key : Row -> Q) (x : Row) (l : list Row) : list Row :=
  match l with
  | [] => [x]
  | y :: l' => if Qle_bool (key y) (key x) then y :: insert_by_key key x l' else x :: l
  end.

Definition sort_by_key (key : Row -> Q) (l : list Row) : list Row :=
  fold_left (fun acc x => insert_by_key key x acc) l [].

(** [ParquetBackend.get_turn_metrics]: [metrics] is the table of
    [turns/podcast_id=<id>/metrics.parquet], [None] when the file does not
    exist; [turn_count] reads the [turn_count] column. *)
Definition get_turn_metrics (turn_count : Row -> Z) (metrics : option (list Row))
    (episode_id : string) : py_exc + list Row :=
  match metrics with
  | None => inl IndexNotBuiltError
  | Some table =>
      match List.filter (fun r => String.eqb (episode_of r) episode_id) table with
      | [] => inr []
      | t => inr (sort_by_key (fun r => inject_Z (turn_count r)) t)
      end
  end.

(** [ParquetBackend.get_turns_for_episode] with [include_audio=False]:
    [text] is the table of [turns/podcast_id=<id>/text.parquet], [None]
    when the file does not exist; [start_time] reads the [start_time]
    column. *)
Definition get_turns_for_episode (start_time : Row -> Q) (text : option (list Row))
    (episode_id : string) : list Row :=
  match text with
  | None => []
  | Some table =>
      match List.filter (fun r => String.eqb (episode_of r) episode_id) table with
      | [] => []
      | t => sort_by_key start_time t
      end
  end.

End PartitionReads.

(** Example catalogs: podcast rows as [(podcast_id, pod_title)] and rows of
    [category_index.parquet] as [(category, podcast_id)]. *)
Definition example_podcasts : list (string * string) :=
  [("p1", "Tech Talk"); ("p2", "Daily News"); ("p3", "News")].

Definition example_category_rows : list (string * string) :=
  [("News", "p1"); ("Technology", "p2"); ("News", "p3")].

(** Two stored turns of an episode of 60 seconds. *)
Definition two_turn_rows : list (list (string * pyval)) :=
  [[("speaker", PStr "A"); ("turn_text", PStr "hello"); ("start_time", PInt 0);
    ("end_time", PInt 10); ("duration", PInt 10); ("turn_count", PInt 0)];
   [("speaker", PStr "B"); ("turn_text", PStr "world"); ("start_time", PInt 10);
    ("end_time", PInt 30); ("duration", PInt 20); ("turn_count", PInt 1)]].

Definition episode_60 : Episode := mkEpisode 60 None.

(** ** Helpers of the concordance and estimation proofs *)


(** A word of [str.split()]: non-empty, without white space. *)
Definition split_word (w : string) : Prop :=
  list_ascii_of_string w <> [] /\
  Forall (fun c => py_isspace c = false) (list_ascii_of_string w).

(** ** [sporc/episode.py]: [get_turns_by_time_range_with_trimming] *)

(** The dict built per turn: [turn], [trimmed_text], [original_text],
    [trimmed_start], [trimmed_end], [was_trimmed]. *)
Record trimmed_turn := mkTrimmedTurn {
  tt_turn : Turn;
  tt_trimmed_text : string;
  tt_original_text : string;
  tt_trimmed_start : Q;
  tt_trimmed_end : Q;
  tt_was_trimmed : bool
}.

(** The body of the loop over the selected turns. *)
Definition trim_entry (behavior : TimeRangeBehavior) (start_time end_time : Q)
    (turn : Turn) : trimmed_turn :=
  let turn_data := mkTrimmedTurn turn (t_text turn) (t_text turn)
                     (t_start_time turn) (t_end_time turn) false in
  match behavior with
  | STRICT => turn_data
  | INCLUDE_PARTIAL =>
      if (if Qlt_le_dec (t_start_time turn) start_time then true
          else if Qlt_le_dec end_time (t_end_time turn) then true else false)
      then mkTrimmedTurn turn (t_text turn) (t_text turn)
             (Qmax (t_start_time turn) start_time) (Qmin (t_end_time turn) end_time) true
      else turn_data
  | INCLUDE_FULL_TURNS => turn_data
  end.

Section TimeRangeTrim.
Variable overlaps_with : Turn -> Turn -> bool.

Definition get_turns_by_time_range_with_trimming (episode : Episode)
    (start_time end_time : Q) (behavior : TimeRangeBehavior)
    : py_error + list trimmed_turn :=
  match ep_turns episode with
  | None => inl RuntimeError
  | Some _ =>
      let start_time := if Qlt_le_dec start_time 0 then 0%Q else start_time in
      let end_time := if Qlt_le_dec (duration_seconds episode) end_time
                      then duration_seconds episode else end_time in
      match get_turns_by_time_range overlaps_with episode start_time end_time behavior with
      | inl e => inl e
      | inr turns => inr (map (trim_entry behavior start_time end_time) turns)
      end
  end.

End TimeRangeTrim.

(** ** [scripts/build_indexes.py]: [build_speaker_name_index] *)

(** The columns of [episode_catalog.parquet] the phase reads. *)
Record catalog_names_row := mkCatalogNamesRow {
  cn_episode_id : string;
  cn_podcast_id : string;
  cn_host_predicted_names : pyval;
  cn_guest_predicted_names : pyval
}.

(** A row of [speaker_name_index.parquet]. *)
Record speaker_name_row := mkSpeakerNameRow {
  name_normalized : string;
  name_original : string;
  sn_role : string;
  sn_episode_id : string;
  sn_podcast_id : string
}.

Section SpeakerIndex.
Context `{PyBuiltins}.

(** The body of the two inner loops: a [None] name and a name blank after
    [str(name).strip()] are skipped. *)
Definition speaker_name_entry (role eid pid : string) (name : pyval)
    : list speaker_name_row :=
  match name with
  | PNone => []
  | _ =>
      let name_str := py_strip (py_str name) in
      if String.eqb name_str "" then []
      else [mkSpeakerNameRow (py_lower name_str) name_str role eid pid]
  end.

(** One inner loop, over [names] if it is a list, else over [[]]. *)
Definition speaker_name_entries (role eid pid : string) (names : pyval)
    : list speaker_name_row :=
  let name_list := match names with PList l => l | _ => [] end in
  flat_map (speaker_name_entry role eid pid) name_list.

(** The rows written, in order: per catalog row its host names, then its
    guest names. *)
Definition build_speaker_name_index (rows : list catalog_names_row)
    : list speaker_name_row :=
  flat_map (fun r =>
      speaker_name_entries "host" (cn_episode_id r) (cn_podcast_id r)
        (cn_host_predicted_names r) ++
      speaker_name_entries "guest" (cn_episode_id r) (cn_podcast_id r)
        (cn_guest_predicted_names r)) rows.

End SpeakerIndex.

(** ** [sporc/parquet_backend.py]: [search_by_speaker_name] *)

(** [DataFrame.head(n)]: the first [n] rows; for a negative [n], all rows
    but the last [-n]. *)
Definition df_head {A} (n : Z) (l : list A) : list A :=
  if Z.leb 0 n then take (Z.to_nat n) l
  else take (length l - Z.to_nat (- n)) l.

(** The record [to_dict(orient="records")] gives per row:
    [(episode_id, podcast_id, name_original, role)]. *)
Definition speaker_result (x : speaker_name_row) : string * string * string * string :=
  (sn_episode_id x, sn_podcast_id x, name_original x, sn_role x).

Section SpeakerSearch.
(** [Series.str.contains(pat, na=False)] of pandas (not part of the
    sources) treats [pat] as a regular expression: it first compiles it
    with [re.compile], which raises [re.error] on an invalid pattern such
    as ["c++"] or ["("], then searches each value.  [re_compile_ok pat]:
    [re.compile(pat)] succeeds; [re_search pat value]: the compiled pattern
    is found in [value]. *)
Variable re_compile_ok : string -> bool.
Variable re_search : string -> string -> bool.

Definition speaker_mask (name_lower : string) (role : option string) (exact : bool)
    (x : speaker_name_row) : bool :=
  (if exact then String.eqb (name_normalized x) name_lower
   else re_search name_lower (name_normalized x)) &&
  match role with
  | Some r => if String.eqb r "" then true else String.eqb (sn_role x) (py_lower r)
  | None => true
  end.

(** [speaker_index] is [_speaker_index_df] after [_ensure_speaker_index]:
    [None] when [speaker_name_index.parquet] does not exist. *)
Definition search_by_speaker_name (speaker_index : option (list speaker_name_row))
    (name : string) (role : option string) (exact : bool) (limit : Z)
    : py_exc + list (string * string * string * string) :=
  match speaker_index with
  | None => inl IndexNotBuiltError
  | Some df =>
      let name_lower := py_strip (py_lower name) in
      if negb exact && negb (re_compile_ok name_lower) then inl (PyErr ReError)
      else inr (map speaker_result
                  (df_head limit (List.filter (speaker_mask name_lower role exact) df)))
  end.

End SpeakerSearch.

(** Episode catalog rows with names to flatten. *)
Definition example_name_rows : list catalog_names_row :=
  [mkCatalogNamesRow "e1" "p1" (PList [PStr " Alice Smith "; PNone; PStr "  "])
     (PList [PStr "Bob"]);
   mkCatalogNamesRow "e2" "p1" PNone (PList [PStr "alice smith"])].

Definition example_turn_episode : Episode :=
  mkEpisode 60 (Some [mkTurn [PStr "A"] "hello" 0 10 10 0;
                      mkTurn [PStr "B"] "world" 10 30 20 1]).

(** ** [scripts/convert_to_parquet.py]: the Phase 2 turn pass *)

Definition TURN_FLUSH_THRESHOLD : Z := 50000.

(** The dict appended to [buffers[pid]["text"]]. *)
Record turn_text_record := mkTurnTextRecord {
  ttr_episode_id : string;
  ttr_podcast_id : string;
  ttr_mp3_url : string;
  ttr_speaker : pyval;
  ttr_turn_text : string;
  ttr_start_time : Q;
  ttr_end_time : Q;
  ttr_duration : Q;
  ttr_turn_count : Z;
  ttr_inferred_speaker_role : string;
  ttr_inferred_speaker_name : string
}.

(** The dict appended to [buffers[pid]["audio"]]. *)
Record turn_audio_record := mkTurnAudioRecord {
  tar_episode_id : string;
  tar_podcast_id : string;
  tar_mp3_url : string;
  tar_turn_count : Z;
  tar_start_time : Q;
  tar_mfcc1_sma3_mean : Q;
  tar_mfcc2_sma3_mean : Q;
  tar_mfcc3_sma3_mean : Q;
  tar_mfcc4_sma3_mean : Q;
  tar_f0_semitone_from_27_5hz_sma3nz_mean : Q;
  tar_f1_frequency_sma3nz_mean : Q
}.

(** The state of [phase2_turns]: the [buffers] and [buffer_counts]
    defaultdicts (keys in insertion order), [flushed_pids], the three
    counters, and the files [turns/podcast_id=<id>/text.parquet] and
    [audio_features.parquet] as tables by podcast id ([None]: no file). *)
Record phase2_state := mkPhase2State {
  p2_buffers : list (string * (list turn_text_record * list turn_audio_record));
  p2_buffer_counts : list (string * Z);
  p2_flushed_pids : gset string;
  p2_text_files : gmap string (list turn_text_record);
  p2_audio_files : gmap string (list turn_audio_record);
  p2_record_count : Z;
  p2_matched_count : Z;
  p2_unmatched_count : Z
}.

(** [if rows: ... pq.write_table(...)]: append [rows] to the podcast's
    file, or create it. *)
Definition append_table {R} (files : gmap string (list R)) (pid : string) (rows : list R)
    : gmap string (list R) :=
  match rows with
  | [] => files
  | _ => <[pid := match files !! pid with
                  | Some existing => existing ++ rows
                  | None => rows
                  end]> files
  end.

(** [buffers[pid]] of the defaultdict. *)
Definition p2_buffer (st : phase2_state) (pid : string)
    : list turn_text_record * list turn_audio_record :=
  match py_dict_get (p2_buffers st) pid with Some b => b | None => ([], []) end.

(** [flush_podcast] *)
Definition flush_podcast (pid : string) (st : phase2_state) : phase2_state :=
  let buf := p2_buffer st pid in
  mkPhase2State
    (py_dict_set (p2_buffers st) pid ([], []))
    (py_dict_set (p2_buffer_counts st) pid 0)
    ({[pid]} ∪ p2_flushed_pids st)
    (append_table (p2_text_files st) pid (fst buf))
    (append_table (p2_audio_files st) pid (snd buf))
    (p2_record_count st) (p2_matched_count st) (p2_unmatched_count st).

Section Phase2.
Context `{PyBuiltins}.

(** The dict literal appended to [buffers[pid]["text"]]: its values are
    evaluated in order, and an exception of [safe_float] or [safe_int]
    propagates. *)
Definition turn_text_record_of (eid pid mp3url : string) (rec : list (string * pyval))
    : py_error + turn_text_record :=
  let speaker := match py_get_or rec "speaker" (PList []) with
                 | PStr s => PList [PStr s]
                 | v => v
                 end in
  let turn_text := safe_str (py_get rec "turnText") "" in
  match safe_float (py_get rec "startTime") 0 with
  | inl err => inl err
  | inr start_time =>
  match safe_float (py_get rec "endTime") 0 with
  | inl err => inl err
  | inr end_time =>
  match safe_float (py_get rec "duration") 0 with
  | inl err => inl err
  | inr duration =>
  match safe_int (py_get rec "turnCount") 0 with
  | inl err => inl err
  | inr turn_count =>
      inr (mkTurnTextRecord eid pid mp3url speaker turn_text
             start_time end_time duration turn_count
             (safe_str (py_get rec "inferredSpeakerRole") "")
             (safe_str (py_get rec "inferredSpeakerName") ""))
  end end end end.

(** The dict literal appended to [buffers[pid]["audio"]]. *)
Definition turn_audio_record_of (eid pid mp3url : string) (rec : list (string * pyval))
    : py_error + turn_audio_record :=
  match safe_int (py_get rec "turnCount") 0 with
  | inl err => inl err
  | inr turn_count =>
  match safe_float (py_get rec "startTime") 0 with
  | inl err => inl err
  | inr start_time =>
  match safe_float (py_get rec "mfcc1_sma3Mean") 0 with
  | inl err => inl err
  | inr mfcc1 =>
  match safe_float (py_get rec "mfcc2_sma3Mean") 0 with
  | inl err => inl err
  | inr mfcc2 =>
  match safe_float (py_get rec "mfcc3_sma3Mean") 0 with
  | inl err => inl err
  | inr mfcc3 =>
  match safe_float (py_get rec "mfcc4_sma3Mean") 0 with
  | inl err => inl err
  | inr mfcc4 =>
  match safe_float (py_get rec "F0semitoneFrom27.5Hz_sma3nzMean") 0 with
  | inl err => inl err
  | inr f0 =>
  match safe_float (py_get rec "F1frequency_sma3nzMean") 0 with
  | inl err => inl err
  | inr f1 =>
      inr (mkTurnAudioRecord eid pid mp3url turn_count start_time
             mfcc1 mfcc2 mfcc3 mfcc4 f0 f1)
  end end end end end end end end.

(** One iteration of the [for rec in pbar] loop; an exception ends the
    run. *)
Definition phase2_step (threshold : Z) (mp3url_to_pid : gmap string string)
    (st : phase2_state) (rec : list (string * pyval)) : py_error + phase2_state :=
  let record_count := p2_record_count st + 1 in
  let mp3url := safe_str (py_get rec "mp3url") "" in
  if String.eqb mp3url "" then
    inr (mkPhase2State (p2_buffers st) (p2_buffer_counts st) (p2_flushed_pids st)
      (p2_text_files st) (p2_audio_files st)
      record_count (p2_matched_count st) (p2_unmatched_count st))
  else
    match mp3url_to_pid !! mp3url with
    | None =>
        inr (mkPhase2State (p2_buffers st) (p2_buffer_counts st) (p2_flushed_pids st)
          (p2_text_files st) (p2_audio_files st)
          record_count (p2_matched_count st) (p2_unmatched_count st + 1))
    | Some pid =>
        let eid := episode_id_from_mp3 mp3url in
        let buf := p2_buffer st pid in
        match turn_text_record_of eid pid mp3url rec with
        | inl err => inl err
        | inr text_row =>
        match turn_audio_record_of eid pid mp3url rec with
        | inl err => inl err
        | inr audio_row =>
            let count := match py_dict_get (p2_buffer_counts st) pid with
                         | Some c => c
                         | None => 0
                         end + 1 in
            let st' := mkPhase2State
              (py_dict_set (p2_buffers st) pid (fst buf ++ [text_row], snd buf ++ [audio_row]))
              (py_dict_set (p2_buffer_counts st) pid count)
              (p2_flushed_pids st) (p2_text_files st) (p2_audio_files st)
              record_count (p2_matched_count st + 1) (p2_unmatched_count st) in
            inr (if Z.leb threshold count then flush_podcast pid st' else st')
        end end
    end.

(** The [for rec in pbar] loop, up to the first exception. *)
Fixpoint phase2_loop (threshold : Z) (mp3url_to_pid : gmap string string)
    (records : list (list (string * pyval))) (st : phase2_state) : py_error + phase2_state :=
  match records with
  | [] => inr st
  | rec :: records' =>
      match phase2_step threshold mp3url_to_pid st rec with
      | inl err => inl err
      | inr st' => phase2_loop threshold mp3url_to_pid records' st'
      end
  end.

(** [for pid in list(buffers.keys()): if ...: flush_podcast(pid)] *)
Definition phase2_final_flush (st : phase2_state) : phase2_state :=
  fold_left (fun st pid =>
      match p2_buffer st pid with
      | ([], []) => st
      | _ => flush_podcast pid st
      end) (map fst (p2_buffers st)) st.

(** [phase2_turns], from the files already in [turns/]. *)
Definition phase2_turns (text_files : gmap string (list turn_text_record))
    (audio_files : gmap string (list turn_audio_record))
    (mp3url_to_pid : gmap string string) (records : list (list (string * pyval)))
    : py_error + phase2_state :=
  match phase2_loop TURN_FLUSH_THRESHOLD mp3url_to_pid records
          (mkPhase2State [] [] ∅ text_files audio_files 0 0 0) with
  | inl err => inl err
  | inr st => inr (phase2_final_flush st)
  end.

(** The podcast, episode id and URL a record is routed to. *)
Definition phase2_route (mp3url_to_pid : gmap string string) (rec : list (string * pyval))
    : option (string * string * string) :=
  let mp3url := safe_str (py_get rec "mp3url") "" in
  if String.eqb mp3url "" then None
  else match mp3url_to_pid !! mp3url with
       | Some pid => Some (pid, episode_id_from_mp3 mp3url, mp3url)
       | None => None
       end.

(** The rows built for podcast [pid] from [records], in stream order (a
    record whose row raises gives none). *)
Fixpoint phase2_rows_for {R} (mk : string -> string -> string -> list (string * pyval) -> py_error + R)
    (mp3url_to_pid : gmap string string) (records : list (list (string * pyval)))
    (pid : string) : list R :=
  match records with
  | [] => []
  | rec :: records' =>
      match phase2_route mp3url_to_pid rec with
      | Some (p, eid, mp3url) =>
          if String.eqb p pid then
            match mk eid p mp3url rec with
            | inr row => row :: phase2_rows_for mk mp3url_to_pid records' pid
            | inl _ => phase2_rows_for mk mp3url_to_pid records' pid
            end
          else phase2_rows_for mk mp3url_to_pid records' pid
      | None => phase2_rows_for mk mp3url_to_pid records' pid
      end
  end.

(** What the loop keeps: for every podcast, the file followed by the
    buffer holds the original file followed by the podcast's rows so far;
    a podcast without rows is untouched; [flushed_pids] holds podcasts
    with rows, and the rows of one not in it are still buffered. *)
Definition phase2_inv (mp3url_to_pid : gmap string string)
    (text0 : gmap string (list turn_text_record))
    (audio0 : gmap string (list turn_audio_record))
    (st : phase2_state) (seen : list (list (string * pyval))) : Prop :=
  forall pid,
    let rt := phase2_rows_for turn_text_record_of mp3url_to_pid seen pid in
    let ra := phase2_rows_for turn_audio_record_of mp3url_to_pid seen pid in
    default [] (p2_text_files st !! pid) ++ fst (p2_buffer st pid)
      = default [] (text0 !! pid) ++ rt /\
    default [] (p2_audio_files st !! pid) ++ snd (p2_buffer st pid)
      = default [] (audio0 !! pid) ++ ra /\
    (rt = [] -> p2_text_files st !! pid = text0 !! pid /\
                p2_audio_files st !! pid = audio0 !! pid /\
                (pid ∉ p2_flushed_pids st) /\ p2_buffer st pid = ([], [])) /\
    (pid ∈ p2_flushed_pids st -> rt <> []) /\
    (rt <> [] -> pid ∈ p2_flushed_pids st \/ fst (p2_buffer st pid) <> []).

End Phase2.

(** Turn records of two podcasts' episodes, one of them unmatched. *)
Definition example_mp3_to_pid : gmap string string :=
  <["a.mp3" := "p1"]> (<["b.mp3" := "p2"]> ∅).

Definition example_turn_records : list (list (string * pyval)) :=
  [[("mp3url", PStr "a.mp3"); ("turnText", PStr "one")];
   [("mp3url", PStr "b.mp3"); ("turnText", PStr "two")];
   [("mp3url", PStr "c.mp3"); ("turnText", PStr "lost")];
   [("mp3url", PStr "a.mp3"); ("turnText", PStr "three")]].

(** ** [sporc/episode.py]: the classification properties of [Episode] *)

(** The [Episode] fields the properties read. *)
Record episode_meta := mkEpisodeMeta {
  em_duration_seconds : Q;
  host_predicted_names : list string;
  guest_predicted_names : list string
}.

Definition num_hosts (e : episode_meta) : Z := Z.of_nat (length (host_predicted_names e)).

Definition num_guests (e : episode_meta) : Z := Z.of_nat (length (guest_predicted_names e)).

Definition duration_minutes (e : episode_meta) : Q := em_duration_seconds e / 60.

Definition is_long_form (e : episode_meta) : bool :=
  if Qlt_le_dec 30 (duration_minutes e) then true else false.

Definition is_short_form (e : episode_meta) : bool :=
  if Qlt_le_dec (duration_minutes e) 10 then true else false.

Definition has_guests (e : episode_meta) : bool :=
  Z.ltb 0 (Z.of_nat (length (guest_predicted_names e))).

Definition is_solo (e : episode_meta) : bool :=
  Z.eqb (num_hosts e) 1 && Z.eqb (num_guests e) 0.

Definition is_interview (e : episode_meta) : bool :=
  Z.leb 1 (num_hosts e) && Z.leb 1 (num_guests e).

Definition is_panel (e : episode_meta) : bool :=
  Z.ltb 2 (num_hosts e + num_guests e).

Definition example_hostname_rows : list (string * string) :=
  [("feeds.example.com", "p1"); ("feeds.example.com", "p2"); ("anchor.fm", "p3")].

(** * Proofs *)

(** ** Conversion lemmas *)

(** [float()] of an int of magnitude at most [2^53] is exact. *)
Lemma float_of_int_exact (z : Z) :
  Z.abs z <= 2 ^ 53 -> float_of_int z = inr (inject_Z z).
Proof. intros Hz. unfold float_of_int. apply Z.leb_le in Hz. rewrite Hz. reflexivity. Qed.

(** ** Slicing and sliding-window lemmas *)

Ltac zcase :=
  repeat match goal with
  | |- context [?a <=? ?b] => destruct (Z.leb_spec a b)
  | |- context [?a <? ?b] => destruct (Z.ltb_spec a b)
  | |- context [?a =? ?b] => destruct (Z.eqb_spec a b)
  end.

Lemma py_slice_take_drop {A} (l : list A) (a b : Z) :
  0 <= a <= b -> b <= Z.of_nat (length l) ->
  py_slice l a b = take (Z.to_nat (b - a)) (drop (Z.to_nat a) l).
Proof.
  intros Hab Hb. unfold py_slice, py_norm_index. zcase; try lia.
  rewrite !Z.min_l by lia. f_equal. lia.
Qed.

Section SlidingWindowProofs.
Context {Turn : Type}.
Variables (ts : list Turn) (w v : Z).
Hypothesis Hv : 0 <= v < w.

Let n := Z.of_nat (length ts).

Lemma sw_turns_within tw k :
  0 <= k -> k * (w - v) + w <= n ->
  tw_turns (sw_make_window ts 0 n w v tw k)
  = take (Z.to_nat w) (drop (Z.to_nat (k * (w - v))) ts).
Proof.
  intros Hk Hle. unfold sw_make_window; simpl.
  assert (0 <= k * (w - v)) by nia.
  rewrite Z.min_l by lia.
  rewrite py_slice_take_drop by lia. f_equal. lia.
Qed.

Lemma sw_new_turns_first tw :
  w <= n -> new_turns (sw_make_window ts 0 n w v tw 0) = take (Z.to_nat w) ts.
Proof.
  intros Hle. unfold new_turns.
  rewrite sw_turns_within by lia. simpl. rewrite drop_0. reflexivity.
Qed.

Lemma sw_new_turns_later tw k :
  0 < k -> k * (w - v) + w <= n ->
  new_turns (sw_make_window ts 0 n w v tw k)
  = take (Z.to_nat (w - v)) (drop (Z.to_nat (k * (w - v) + v)) ts).
Proof.
  intros Hk Hle. unfold new_turns.
  rewrite sw_turns_within by lia.
  assert (0 <= k * (w - v)) by nia.
  unfold sw_make_window, is_first; simpl.
  destruct (Z.ltb_spec 0 k); [|lia]. destruct (Z.eqb_spec k 0); [lia|].
  simpl. destruct (Z.ltb_spec 0 v) as [Hv0|Hv0]; simpl.
  - rewrite length_take, length_drop.
    rewrite Nat.min_l by lia.
    rewrite py_slice_take_drop by (rewrite ?length_take, ?length_drop; lia).
    replace (Z.to_nat w) with (Z.to_nat v + Z.to_nat (w - v))%nat by lia.
    rewrite <- take_drop_commute, take_take, drop_drop.
    f_equal; [|f_equal]; lia.
  - assert (v = 0) by lia. subst v. rewrite !Z.sub_0_r, Z.add_0_r. reflexivity.
Qed.

Lemma sw_new_turns_concat_tail tw (j : nat) :
  Z.of_nat j * (w - v) + w <= n ->
  concat (map (new_turns ∘ sw_make_window ts 0 n w v tw)
              (map Z.of_nat (seq 1 j)))
  = take (Z.to_nat (w - v) * j) (drop (Z.to_nat w) ts).
Proof.
  induction j as [|j IH]; intros Hle.
  - simpl. rewrite Nat.mul_0_r. reflexivity.
  - rewrite seq_S, !map_app, concat_app, IH by nia. simpl.
    rewrite sw_new_turns_later by nia. rewrite app_nil_r.
    replace (Z.to_nat (Z.of_nat (S j) * (w - v) + v))
      with (Z.to_nat w + Z.to_nat (w - v) * j)%nat by nia.
    rewrite <- drop_drop, take_take_drop. f_equal. lia.
Qed.

End SlidingWindowProofs.

Section SlidingWindowDefaults.
Context {Turn : Type}.

(** With the default indices, [sliding_window] yields the windows of the
    whole list [0, n). *)
Lemma sliding_window_default_range (ts : list Turn) (w v : Z) :
  (1 <= length ts)%nat -> 0 <= v < w ->
  let n := Z.of_nat (length ts) in
  let tw := if n <=? w then 1 else (n - w) / (w - v) + 1 in
  sliding_window true ts w v None None
  = inr (map (sw_make_window ts 0 n w v tw) (map Z.of_nat (seq 0 (Z.to_nat tw)))).
Proof.
  intros Hn Hv n tw. subst n tw. unfold sliding_window; simpl.
  zcase; try lia; rewrite ?Z.sub_0_r; reflexivity.
Qed.

Lemma sw_covered_bounds (n w v : Z) :
  1 <= n -> 0 <= v < w ->
  sw_covered n w v <= n /\
  (sw_covered n w v = n <-> n <= w \/ (n - w) mod (w - v) = 0).
Proof.
  intros Hn Hv. unfold sw_covered. destruct (Z.leb_spec n w).
  - split; [lia|]. split; [auto|intros _; reflexivity].
  - pose proof (Z.div_mod (n - w) (w - v) ltac:(lia)) as Hdm.
    pose proof (Z.mod_pos_bound (n - w) (w - v) ltac:(lia)).
    split; [nia|]. split.
    + intros Hc. right. nia.
    + intros [Hc|Hc]; [lia|]. nia.
Qed.

End SlidingWindowDefaults.

(** C2 (amended): for a loaded list of [n >= 1] turns and [0 <= v < w],
    [sliding_window] with the default indices yields
    [floor((n - w) / (w - v)) + 1] windows when [n > w], and exactly one
    window when [n <= w]: only complete windows are counted. *)
Theorem sliding_window_count {Turn : Type} (ts : list Turn) (w v : Z) :
  (1 <= length ts)%nat -> 0 <= v < w ->
  exists ws, sliding_window true ts w v None None = inr ws /\
    Z.of_nat (length ws)
    = (let n := Z.of_nat (length ts) in
       if n <=? w then 1 else (n - w) / (w - v) + 1).
Proof.
  intros Hn Hv. rewrite sliding_window_default_range by assumption.
  eexists; split; [reflexivity|]. simpl.
  rewrite !length_map, length_seq.
  destruct (Z.leb_spec (Z.of_nat (length ts)) w); [lia|].
  pose proof (Z.div_pos (Z.of_nat (length ts) - w) (w - v) ltac:(lia) ltac:(lia)).
  lia.
Qed.

Lemma sliding_window_count_witness :
  (1 <= length (seq 0 10))%nat /\ 0 <= 1 < 3 /\
  exists ws, sliding_window true (seq 0 10) 3 1 None None = inr ws /\
    Z.of_nat (length ws)
    = (let n := Z.of_nat (length (seq 0 10)) in
       if n <=? 3 then 1 else (n - 3) / (3 - 1) + 1).
Proof.
  split; [simpl; lia|]. split; [lia|].
  apply (sliding_window_count (seq 0 10) 3 1); simpl; lia.
Defined.

(** C2 counterexample: five turns, [window_size = 3], [overlap = 0]: the
    code yields one window, the ceiling formula asks for two. *)
Lemma sliding_window_count_ceil_fails :
  ~ (forall ws, sliding_window true (seq 0 5) 3 0 None None = inr ws ->
       Z.of_nat (length ws) = spec_window_count 5 3 0).
Proof.
  intros H. specialize (H _ eq_refl). vm_compute in H. discriminate H.
Qed.

(** C3 (amended): for a loaded list of [n >= 1] turns and [0 <= v < w],
    the new turns of the windows, concatenated in order, are exactly the
    first [sw_covered n w v] turns (no turn twice, none of that prefix
    missing); this prefix is the whole list iff [n <= w] or [w - v]
    divides [n - w], and otherwise the trailing turns that do not fill a
    complete window are in no window. *)
Theorem sliding_window_new_turns_prefix {Turn : Type} (ts : list Turn) (w v : Z) :
  (1 <= length ts)%nat -> 0 <= v < w ->
  exists ws, sliding_window true ts w v None None = inr ws /\
    concat (map new_turns ws)
    = take (Z.to_nat (sw_covered (Z.of_nat (length ts)) w v)) ts /\
    sw_covered (Z.of_nat (length ts)) w v <= Z.of_nat (length ts) /\
    (sw_covered (Z.of_nat (length ts)) w v = Z.of_nat (length ts) <->
     Z.of_nat (length ts) <= w \/ (Z.of_nat (length ts) - w) mod (w - v) = 0).
Proof.
  intros Hn Hv. rewrite sliding_window_default_range by assumption.
  eexists; split; [reflexivity|].
  pose proof (sw_covered_bounds (Z.of_nat (length ts)) w v ltac:(lia) Hv) as Hb.
  split; [|exact Hb].
  rewrite map_map. unfold sw_covered in *.
  destruct (Z.leb_spec (Z.of_nat (length ts)) w) as [Hle|Hgt].
  - simpl. rewrite app_nil_r, take_ge by lia.
    unfold new_turns, is_first, sw_make_window; simpl.
    rewrite Z.min_r by lia.
    rewrite py_slice_take_drop by lia. rewrite drop_0, take_ge by lia.
    reflexivity.
  - set (q := (Z.of_nat (length ts) - w) / (w - v)).
    assert (Hq0 : 0 <= q) by (apply Z.div_pos; lia).
    assert (Hq : q * (w - v) + w <= Z.of_nat (length ts)).
    { pose proof (Z.mul_div_le (Z.of_nat (length ts) - w) (w - v) ltac:(lia)).
      subst q. lia. }
    replace (Z.to_nat (q + 1)) with (S (Z.to_nat q)) by lia.
    rewrite <- cons_seq. simpl.
    rewrite sw_new_turns_first by lia.
    rewrite <- seq_shift, map_map.
    pose proof (sw_new_turns_concat_tail ts w v Hv (q + 1) (Z.to_nat q)
                  ltac:(rewrite Z2Nat.id; lia)) as Hc.
    rewrite map_map in Hc. rewrite <- seq_shift, map_map in Hc.
    unfold compose in Hc. rewrite ?map_map, Hc, take_take_drop.
    f_equal. nia.
Qed.

Lemma sliding_window_new_turns_prefix_witness :
  (1 <= length (seq 0 10))%nat /\ 0 <= 0 < 3 /\
  exists ws, sliding_window true (seq 0 10) 3 0 None None = inr ws /\
    concat (map new_turns ws)
    = take (Z.to_nat (sw_covered (Z.of_nat (length (seq 0 10))) 3 0)) (seq 0 10) /\
    sw_covered (Z.of_nat (length (seq 0 10))) 3 0 <= Z.of_nat (length (seq 0 10)) /\
    (sw_covered (Z.of_nat (length (seq 0 10))) 3 0 = Z.of_nat (length (seq 0 10)) <->
     Z.of_nat (length (seq 0 10)) <= 3 \/
     (Z.of_nat (length (seq 0 10)) - 3) mod (3 - 0) = 0).
Proof.
  split; [simpl; lia|]. split; [lia|].
  apply (sliding_window_new_turns_prefix (seq 0 10) 3 0); simpl; lia.
Defined.

(** C3 counterexample: five turns, [window_size = 3], [overlap = 0]: the
    only window's new turns are turns 0, 1 and 2; turns 3 and 4 are in no
    window. *)
Lemma sliding_window_new_turns_incomplete :
  exists ws, sliding_window true (seq 0 5) 3 0 None None = inr ws /\
    concat (map new_turns ws) = [0; 1; 2]%nat /\
    concat (map new_turns ws) <> seq 0 5.
Proof.
  eexists; split; [reflexivity|]. split; [reflexivity|].
  vm_compute. discriminate.
Qed.

(** C4 (code bug): on a loaded but empty turn list, [sliding_window] with
    valid parameters ([0 <= v < w]) and the default indices raises
    [ValueError] when it is first resumed: the default start index 0 fails
    the check [start_index >= len(self._turns)], so the code's own
    [if total_turns <= 0: return], meant to end with zero windows, is
    never reached. *)
Theorem sliding_window_empty_raises {Turn : Type} (w v : Z) :
  0 <= v < w ->
  sliding_window true (@nil Turn) w v None None = inl ValueError.
Proof.
  intros Hv. unfold sliding_window; simpl. zcase; try lia; reflexivity.
Qed.

Lemma sliding_window_empty_raises_witness :
  0 <= 1 < 2 /\ sliding_window true (@nil nat) 2 1 None None = inl ValueError.
Proof.
  split; [lia|]. apply (sliding_window_empty_raises 2 1). lia.
Defined.

(** C4 counterexample: an empty loaded turn list, [window_size = 2],
    [overlap = 1]: the generator raises instead of yielding zero windows. *)
Lemma sliding_window_empty_not_zero_windows :
  sliding_window true (@nil nat) 2 1 None None <> inr [].
Proof. vm_compute. discriminate. Qed.

(** C1: on the turn ["the quick brown fox jumps over the lazy dog"],
    [concordance "fox" 2] matches at character offset 16, whose prefix
    holds 3 words, but it takes word index 2: the record has keyword
    ["brown"], left context ["the quick"] and right context
    ["fox jumps"], not ["fox"], ["quick brown"] and ["jumps over"]. *)
Theorem concordance_fox_word_index :
  re_search_icase "fox" (sr_turn_text kwic_fox_row) = Some 16%nat /\
  length (py_split (py_prefix (sr_turn_text kwic_fox_row) 16)) = 3%nat /\
  map (fun k => (left_context k, keyword k, right_context k))
      (concordance "fox" 2 [kwic_fox_row])
  = [("the quick", "brown", "fox jumps")]%string.
Proof. split; [|split]; vm_compute; reflexivity. Qed.

(** ** Occurrence scanning lemmas *)

Lemma length_list_ascii_of_string (s : string) :
  length (list_ascii_of_string s) = String.length s.
Proof. induction s; simpl; auto. Qed.

Lemma length_py_lower (s : string) :
  length (list_ascii_of_string (py_lower s)) = String.length s.
Proof.
  unfold py_lower. rewrite list_ascii_of_string_of_list_ascii, length_map.
  apply length_list_ascii_of_string.
Qed.

Lemma find_from_count (p l : list ascii) (i : nat) :
  match find_from p l i with
  | None => positions_count p l = 0%nat
  | Some j => (i <= j)%nat /\ (j - i <= length l)%nat /\
              positions_count p l = S (tail_count p l (S (j - i)))
  end.
Proof.
  revert i. induction l as [|a l IH]; intros i; simpl.
  - destruct (is_prefix p []); simpl; [|reflexivity].
    split; [lia|]. split; [lia|]. unfold tail_count. simpl. reflexivity.
  - destruct (is_prefix p (a :: l)) eqn:Hp; simpl.
    + split; [lia|]. split; [lia|].
      unfold tail_count. simpl. rewrite Nat.sub_diag.
      destruct (Nat.ltb_spec (S (length l)) 1); [lia|]. reflexivity.
    + specialize (IH (S i)). destruct (find_from p l (S i)) as [j|].
      * destruct IH as (Hij & Hlen & Hc). split; [lia|]. split; [lia|].
        rewrite Hc. f_equal. unfold tail_count.
        replace (S (j - i)) with (S (S (j - S i))) by lia. simpl.
        destruct (Nat.ltb_spec (length l) (S (j - S i)));
          destruct (Nat.ltb_spec (S (length l)) (S (S (j - S i)))); try lia;
          reflexivity.
      * exact IH.
Qed.

Section Scan.
Variables (text_lower word_lower : string) (occurrence : Z).
Let h := list_ascii_of_string text_lower.
Let p := list_ascii_of_string word_lower.

(** When fewer than [occurrence - found_count] occurrences are left from
    [start_search] on, the scan reaches the end of the turn and counts
    them all. *)
Lemma scan_occurrences_exhausts (fuel s : nat) (found : Z) :
  (s <= S (length h))%nat -> (S (S (length h)) - s <= fuel)%nat ->
  found + Z.of_nat (tail_count p h s) <= occurrence ->
  scan_occurrences fuel text_lower word_lower occurrence s found
  = inr (found + Z.of_nat (tail_count p h s)).
Proof.
  revert s found. induction fuel as [|fuel IH]; intros s found Hs Hf Hocc; [lia|].
  simpl. unfold py_find. fold h p.
  destruct (Nat.ltb_spec (length h) s) as [Hlt|Hge]; simpl.
  - unfold tail_count. destruct (Nat.ltb_spec (length h) s); [|lia].
    simpl. f_equal. lia.
  - pose proof (find_from_count p (drop s h) s) as Hc.
    destruct (find_from p (drop s h) s) as [j|]; simpl.
    + destruct Hc as (Hsj & Hjl & Hcnt). rewrite length_drop in Hjl.
      assert (Htail : tail_count p h s = S (tail_count p h (S j))).
      { unfold tail_count at 1. destruct (Nat.ltb_spec (length h) s); [lia|].
        rewrite Hcnt. f_equal. unfold tail_count.
        rewrite length_drop, drop_drop.
        replace (s + S (j - s))%nat with (S j) by lia.
        destruct (Nat.ltb_spec (length h - s) (S (j - s)));
          destruct (Nat.ltb_spec (length h) (S j)); try lia; reflexivity. }
      rewrite Htail in Hocc |- *.
      destruct (Z.eqb_spec (Z.of_nat j) (-1)); [lia|].
      destruct (Z.eqb_spec found occurrence); [lia|].
      rewrite Nat2Z.id. rewrite IH by lia. f_equal. lia.
    + simpl. unfold tail_count. destruct (Nat.ltb_spec (length h) s); [lia|].
      rewrite Hc. simpl. f_equal. lia.
Qed.

End Scan.

Lemma estimate_loop_none (turns : list turn_row) (word : string) (occurrence found : Z) :
  found + Z.of_nat (total_occurrences turns word) <= occurrence ->
  estimate_loop turns word occurrence found = None.
Proof.
  revert found. induction turns as [|t turns IH]; intros found Hocc;
    cbn [estimate_loop]; [reflexivity|].
  unfold total_occurrences in Hocc. cbn [map sum_list] in Hocc.
  fold (total_occurrences turns word) in Hocc.
  unfold occurrence_count in Hocc.
  rewrite (scan_occurrences_exhausts _ _ _ _ 0 found).
  - apply IH. unfold tail_count, id in *. simpl. rewrite drop_0. lia.
  - lia.
  - rewrite length_py_lower. lia.
  - unfold tail_count, id in *. simpl. rewrite drop_0. lia.
Qed.

(** C8: for the turn ["aaaa bbbb"] (9 characters) from 10.0 to 20.0,
    [estimate_word_audio ... "bbbb"] returns [estimated_start = 15.56]
    (the rounding of [10 + (5/9) * 10]), [estimated_end = 20.0] and a
    confidence in (0, 1]; and whenever [occurrence] exceeds the number of
    case-insensitive occurrences of [word] across the turns,
    [estimate_word_audio] returns [None]. *)
Theorem estimate_word_audio_spec :
  (exists r, estimate_word_audio [audio_demo_turn] "bbbb" 0 = Some r /\
     estimated_start r == 1556 # 100 /\ estimated_end r == 20 /\
     0 < confidence r /\ confidence r <= 1)%Q /\
  (forall (turns : list turn_row) (word : string) (occurrence : Z),
     Z.of_nat (total_occurrences turns word) < occurrence ->
     estimate_word_audio turns word occurrence = None).
Proof.
  split.
  - eexists; split; [vm_compute; reflexivity|].
    repeat split; vm_compute; reflexivity || discriminate.
  - intros turns word occurrence Hocc. unfold estimate_word_audio.
    destruct turns as [|t turns]; [reflexivity|].
    apply estimate_loop_none. lia.
Qed.

Lemma estimate_word_audio_spec_witness :
  Z.of_nat (total_occurrences [audio_demo_turn] "bbbb") < 2 /\
  estimate_word_audio [audio_demo_turn] "bbbb" 2 = None.
Proof.
  split; [vm_compute; reflexivity|].
  apply (proj2 estimate_word_audio_spec). vm_compute. reflexivity.
Defined.

(** ** Catalog index lemmas *)

Lemma index_go_lookup (keys : list string) (i : nat) (m : gmap string nat) (k : string) :
  match index_go keys i m !! k with
  | Some j => (m !! k = Some j /\ k ∉ keys) \/ (i <= j /\ keys !! (j - i) = Some k)%nat
  | None => m !! k = None /\ k ∉ keys
  end.
Proof.
  revert i m. induction keys as [|k' ks IH]; intros i m; simpl.
  - destruct (m !! k); [left; split; [done|set_solver]|split; [done|set_solver]].
  - specialize (IH (S i) (<[k' := i]> m)).
    destruct (index_go ks (S i) (<[k' := i]> m) !! k) as [j|].
    + destruct IH as [[Hm Hn]|[Hij Hk]].
      * destruct (decide (k = k')) as [->|Hne].
        -- rewrite lookup_insert_eq in Hm. injection Hm as <-.
           right. split; [lia|]. rewrite Nat.sub_diag. done.
        -- rewrite lookup_insert_ne in Hm by done. left. split; [done|set_solver].
      * right. split; [lia|]. replace (j - i)%nat with (S (j - S i)) by lia. done.
    + destruct IH as [Hm Hn].
      destruct (decide (k = k')) as [->|Hne].
      * rewrite lookup_insert_eq in Hm. discriminate.
      * rewrite lookup_insert_ne in Hm by done. split; [done|set_solver].
Qed.

Lemma build_index_lookup (keys : list string) (k : string) :
  match build_index keys !! k with
  | Some j => keys !! j = Some k
  | None => k ∉ keys
  end.
Proof.
  unfold build_index. pose proof (index_go_lookup keys 0 ∅ k) as H.
  destruct (index_go keys 0 ∅ !! k) as [j|].
  - destruct H as [[Hm _]|[_ Hk]]; [rewrite lookup_empty in Hm; discriminate|].
    rewrite Nat.sub_0_r in Hk. exact Hk.
  - apply H.
Qed.

(** C10: on the index built from the episode catalog, [get_episode_by_id]
    never raises; it returns [None] for an id absent from the catalog and
    the catalog row of the id otherwise, whereas [get_podcast_by_id]
    raises [NotFoundError] for an id absent from the podcast catalog. *)
Theorem get_episode_by_id_never_fails {Row : Type}
    (episode_id_of podcast_id_of : Row -> string)
    (episode_df podcast_df : list Row) (eid pid : string) :
  let eidx := catalog_index episode_id_of episode_df in
  (forall e, get_episode_by_id episode_df eidx eid <> inl e) /\
  (eid ∉ map episode_id_of episode_df ->
     get_episode_by_id episode_df eidx eid = inr None) /\
  (eid ∈ map episode_id_of episode_df ->
     exists i r, episode_df !! i = Some r /\ episode_id_of r = eid /\
       get_episode_by_id episode_df eidx eid = inr (Some r)) /\
  (pid ∉ map podcast_id_of podcast_df ->
     get_podcast_by_id podcast_df (catalog_index podcast_id_of podcast_df) pid
     = inl NotFoundError).
Proof.
  intros eidx. subst eidx. unfold catalog_index, get_episode_by_id, get_podcast_by_id.
  pose proof (build_index_lookup (map episode_id_of episode_df) eid) as He.
  pose proof (build_index_lookup (map podcast_id_of podcast_df) pid) as Hp.
  destruct (build_index (map episode_id_of episode_df) !! eid) as [j|] eqn:Hj.
  - apply list_lookup_fmap_Some_1 in He as (r & Hk & Hr).
    unfold row_at. rewrite Hr.
    split; [intros e; discriminate|]. split; [intros Hn; exfalso; apply Hn;
      apply list_elem_of_fmap; exists r; split; [done|by eapply list_elem_of_lookup_2]|].
    split; [intros _; exists j, r; done|].
    intros Hn. destruct (build_index (map podcast_id_of podcast_df) !! pid); [|done].
    exfalso. apply Hn. apply list_elem_of_lookup. eauto.
  - split; [intros e; discriminate|]. split; [done|].
    split; [intros Hin; contradiction|].
    intros Hn. destruct (build_index (map podcast_id_of podcast_df) !! pid); [|done].
    exfalso. apply Hn. apply list_elem_of_lookup. eauto.
Qed.

Lemma get_episode_by_id_never_fails_witness :
  let df := [("e1", "p1"); ("e2", "p1")]%string in
  ("e9" ∉ map fst df)%string /\
  get_episode_by_id df (catalog_index fst df) "e9" = inr None /\
  ("p9" ∉ map snd df)%string /\
  get_podcast_by_id df (catalog_index snd df) "p9" = inl NotFoundError.
Proof.
  intros df.
  assert (He : ("e9" ∉ map fst df)%string).
  { simpl. rewrite !elem_of_cons, elem_of_nil.
    intros [H|[H|H]]; [discriminate H|discriminate H|exact H]. }
  assert (Hp : ("p9" ∉ map snd df)%string).
  { simpl. rewrite !elem_of_cons, elem_of_nil.
    intros [H|[H|H]]; [discriminate H|discriminate H|exact H]. }
  destruct (get_episode_by_id_never_fails fst snd df df "e9" "p9")
    as (_ & H1 & _ & H2).
  split; [exact He|]. split; [exact (H1 He)|]. split; [exact Hp|]. exact (H2 Hp).
Defined.

(** ** Coercer lemmas *)

Lemma lstrip_chars_idem (l : list ascii) :
  lstrip_chars (lstrip_chars l) = lstrip_chars l.
Proof.
  induction l as [|c l IH]; simpl; [reflexivity|].
  destruct (py_isspace c) eqn:Hc; [exact IH|]. simpl. rewrite Hc. reflexivity.
Qed.

Lemma lstrip_chars_drop (l : list ascii) :
  exists k, lstrip_chars l = drop k l.
Proof.
  induction l as [|c l [k IH]]; simpl; [exists 0%nat; reflexivity|].
  destruct (py_isspace c); [exists (S k); exact IH|exists 0%nat; reflexivity].
Qed.

Lemma lstrip_chars_head (l : list ascii) (c : ascii) (l' : list ascii) :
  lstrip_chars l = c :: l' -> py_isspace c = false.
Proof.
  induction l as [|d l IH]; simpl; [discriminate|].
  destruct (py_isspace d) eqn:Hd; [exact IH|]. intros [= <- _]. exact Hd.
Qed.

Lemma lstrip_chars_id (l : list ascii) :
  (forall c l', l = c :: l' -> py_isspace c = false) -> lstrip_chars l = l.
Proof.
  destruct l as [|c l]; simpl; [reflexivity|]. intros H.
  rewrite (H c l eq_refl). reflexivity.
Qed.

Lemma rstrip_chars_take (l : list ascii) :
  exists k, rstrip_chars l = take k l.
Proof.
  unfold rstrip_chars. destruct (lstrip_chars_drop (reverse l)) as [k ->].
  exists (length l - k)%nat. rewrite drop_reverse, reverse_involutive.
  reflexivity.
Qed.

Lemma strip_chars_idem (l : list ascii) :
  rstrip_chars (lstrip_chars (rstrip_chars (lstrip_chars l)))
  = rstrip_chars (lstrip_chars l).
Proof.
  set (m := lstrip_chars l).
  assert (Hm : forall c l', m = c :: l' -> py_isspace c = false)
    by (intros c l' E; exact (lstrip_chars_head l c l' E)).
  rewrite (lstrip_chars_id (rstrip_chars m)).
  - unfold rstrip_chars. rewrite reverse_involutive, lstrip_chars_idem. reflexivity.
  - intros c l' E. destruct (rstrip_chars_take m) as [k Hk]. rewrite Hk in E.
    destruct m as [|d m']; [rewrite take_nil in E; discriminate|].
    destruct k as [|k]; [discriminate|]. simpl in E. injection E as <- _.
    exact (Hm _ m' eq_refl).
Qed.

Lemma py_strip_idem (s : string) : py_strip (py_strip s) = py_strip s.
Proof.
  unfold py_strip. rewrite list_ascii_of_string_of_list_ascii, strip_chars_idem.
  reflexivity.
Qed.


Section CoercerExamples.
#[local] Existing Instance example_builtins.



End CoercerExamples.

(** ** Ingest lemmas *)

Lemma length_string_of_list_ascii (l : list ascii) :
  String.length (string_of_list_ascii l) = length l.
Proof. induction l; simpl; auto. Qed.

Lemma length_flat_map_two {A B} (f : A -> list B) (l : list A) :
  (forall x, length (f x) = 2%nat) -> length (flat_map f l) = (2 * length l)%nat.
Proof.
  intros Hf. induction l as [|x l IH]; simpl; [reflexivity|].
  rewrite length_app, Hf, IH. lia.
Qed.

Section IngestProofs.
Context `{PyBuiltins}.

Lemma phase1_step_ids (st : phase1_state) (rec : list (string * pyval)) :
  ids_consistent st -> ids_consistent (phase1_step st rec).
Proof.
  intros [Hrows Hagg]. unfold phase1_step.
  destruct (_ || _); [split; assumption|].
  case_bool_decide; [split; assumption|].
  split; simpl.
  - intros row Hin. apply elem_of_app in Hin as [Hin|Hin]; [auto|].
    apply list_elem_of_singleton in Hin as ->. simpl. auto.
  - intros pid info Hl.
    match type of Hl with
    | <[?k := _]> _ !! _ = _ => destruct (decide (pid = k)) as [->|Hne]
    end.
    + rewrite lookup_insert_eq in Hl. injection Hl as <-. simpl.
      match goal with |- context [podcast_agg st !! ?k] =>
        destruct (podcast_agg st !! k) as [i|] eqn:Hi end; simpl; [|auto].
      destruct (Hagg _ _ Hi) as [Hp Hr]. split; [exact Hp|exact Hr].
    + rewrite lookup_insert_ne in Hl by congruence. auto.
Qed.

Lemma phase1_fold_ids (records : list (list (string * pyval))) (st : phase1_state) :
  ids_consistent st -> ids_consistent (fold_left phase1_step records st).
Proof.
  revert st. induction records as [|rec records IH]; intros st Hst; simpl; [exact Hst|].
  apply IH, phase1_step_ids, Hst.
Qed.

End IngestProofs.

(** C7: after the Phase 1 pass over any records, every stored episode row
    has [podcast_id] = the first 12 characters of the MD5 hexdigest of the
    UTF-8 encoding of its [rss_url] and [episode_id] = the first 16 of
    that of its [mp3_url], every podcast aggregate is keyed by the id of
    its [rss_url]; rows with the same URLs therefore get the same ids, and
    with a 16-byte digest the ids have 12 and 16 characters. *)
Theorem phase1_ids_from_md5 `{PyBuiltins} (records : list (list (string * pyval))) :
  let st := phase1_episodes records in
  (forall row, row ∈ episode_rows st ->
     er_podcast_id row
     = py_prefix (hexdigest (md5_digest (utf8_encode (er_rss_url row)))) 12 /\
     er_episode_id row
     = py_prefix (hexdigest (md5_digest (utf8_encode (er_mp3_url row)))) 16) /\
  (forall pid info, podcast_agg st !! pid = Some info ->
     pid = py_prefix (hexdigest (md5_digest (utf8_encode (pa_rss_url info)))) 12) /\
  (forall r1 r2, r1 ∈ episode_rows st -> r2 ∈ episode_rows st ->
     (er_rss_url r1 = er_rss_url r2 -> er_podcast_id r1 = er_podcast_id r2) /\
     (er_mp3_url r1 = er_mp3_url r2 -> er_episode_id r1 = er_episode_id r2)) /\
  (forall url, length (md5_digest (utf8_encode url)) = 16%nat ->
     String.length (podcast_id_from_rss url) = 12%nat /\
     String.length (episode_id_from_mp3 url) = 16%nat).
Proof.
  intros st.
  assert (Hinv : ids_consistent st).
  { apply phase1_fold_ids. split; simpl; [intros row Hin; inversion Hin|].
    intros pid info Hl. rewrite lookup_empty in Hl. discriminate. }
  destruct Hinv as [Hrows Hagg].
  split; [exact Hrows|]. split; [intros pid info Hl; apply (Hagg _ _ Hl)|].
  split.
  - intros r1 r2 H1 H2. destruct (Hrows r1 H1) as [P1 E1].
    destruct (Hrows r2 H2) as [P2 E2]. split; intros E; congruence.
  - intros url Hlen.
    assert (Hhex : forall d, length (list_ascii_of_string (hexdigest d)) = (2 * length d)%nat).
    { intros d. unfold hexdigest. rewrite list_ascii_of_string_of_list_ascii.
      apply length_flat_map_two. intros b. reflexivity. }
    unfold podcast_id_from_rss, episode_id_from_mp3, py_prefix.
    rewrite !length_string_of_list_ascii, !length_take.
    rewrite !Hhex, Hlen. split; reflexivity.
Qed.

Section IngestExamples.
#[local] Existing Instance example_builtins.

Lemma phase1_ids_from_md5_witness :
  length (md5_digest (utf8_encode "http://a.b/feed.")) = 16%nat /\
  String.length (podcast_id_from_rss "http://a.b/feed.") = 12%nat /\
  String.length (episode_id_from_mp3 "http://a.b/feed.") = 16%nat.
Proof.
  assert (Hl : length (md5_digest (utf8_encode "http://a.b/feed.")) = 16%nat)
    by (vm_compute; reflexivity).
  split; [exact Hl|].
  exact (proj2 (proj2 (proj2 (phase1_ids_from_md5 [])))
           "http://a.b/feed."%string Hl).
Defined.

End IngestExamples.

(** ** Turn loader lemmas *)

Lemma make_turn_times (speaker : list pyval) (text : string) (s e d : Q) (tc : Z)
    (t : Turn) :
  make_turn speaker text s e d tc = inr t -> (0 <= s)%Q /\ t = mkTurn speaker text s e d tc.
Proof.
  unfold make_turn.
  destruct (length speaker =? 0)%nat; [discriminate|].
  destruct (String.eqb (py_strip text) ""); [discriminate|].
  destruct (Qlt_le_dec s 0); [discriminate|].
  destruct (Qlt_le_dec e s); [discriminate|].
  destruct (Qlt_le_dec d 0); [discriminate|].
  intros Ht. injection Ht as <-. auto.
Qed.

Lemma insert_by_start_forall (P : Turn -> Prop) (t : Turn) (l : list Turn) :
  P t -> Forall P l -> Forall P (insert_by_start t l).
Proof.
  intros Ht Hl. induction Hl as [|u l' Hu Hl' IH]; simpl.
  - constructor; [exact Ht | constructor].
  - destruct (Qlt_le_dec (t_start_time t) (t_start_time u)).
    + constructor; [exact Ht | constructor; assumption].
    + constructor; assumption.
Qed.

Lemma sort_by_start_forall (P : Turn -> Prop) (l : list Turn) :
  Forall P l -> Forall P (sort_by_start l).
Proof.
  unfold sort_by_start. intros Hl.
  assert (Hacc : Forall P []) by constructor. revert Hacc.
  generalize (@nil Turn) as acc.
  induction Hl as [|t l Ht Hl IH]; intros acc Hacc; simpl.
  - exact Hacc.
  - apply IH. apply insert_by_start_forall; assumption.
Qed.

Section TurnLoaderProofs.
Context `{PyBuiltins}.

Lemma load_turn_rows_times (rows : list (list (string * pyval))) (turns : list Turn) :
  load_turn_rows rows = inr turns -> Forall turn_times_ok turns.
Proof.
  revert turns. induction rows as [|row rest IH]; intros turns; simpl.
  - intros Ht. injection Ht as <-. constructor.
  - destruct (length (row_speaker _) =? 0)%nat; [apply IH|].
    destruct (String.eqb _ ""); [apply IH|].
    destruct (py_float (py_get_or row "start_time" (PInt 0))) as [?|s]; [discriminate|].
    destruct (py_float (py_get_or row "end_time" (PInt 0))) as [?|e]; [discriminate|].
    destruct (py_float (py_get_or row "duration" (PInt 0))) as [?|d]; [discriminate|].
    destruct (Qle_bool e s) eqn:Hes; [apply IH|].
    destruct (py_int (py_get_or row "turn_count" (PInt 0))) as [tc|]; [|apply IH].
    destruct (make_turn _ _ s e d tc) as [err|t] eqn:Hmk; [apply IH|].
    destruct (load_turn_rows rest) as [err|ts] eqn:Hrest; [discriminate|].
    intros Ht. injection Ht as <-. constructor.
    + apply make_turn_times in Hmk as [Hs ->]. unfold turn_times_ok; simpl.
      split; [exact Hs|]. apply Qnot_le_lt. intros Hle.
      apply Qle_bool_iff in Hle. congruence.
    + apply IH. reflexivity.
Qed.

End TurnLoaderProofs.

(** C6 (amended): every turn that [_load_turns_into_episode] attaches to
    an episode whose turns were not yet loaded satisfies
    [0 <= start_time < end_time]; [end_time] is not compared with the
    episode's [duration_seconds], which the loader leaves unchanged. *)
Theorem loaded_turns_start_before_end `{PyBuiltins} (episode episode' : Episode)
    (turn_rows : list (list (string * pyval))) (turns : list Turn) :
  ep_turns episode = None ->
  load_turns_into_episode episode turn_rows = inr episode' ->
  ep_turns episode' = Some turns ->
  duration_seconds episode' = duration_seconds episode /\
  Forall turn_times_ok turns.
Proof.
  intros Hnone. unfold load_turns_into_episode. rewrite Hnone.
  destruct (load_turn_rows turn_rows) as [e|ts] eqn:Hl; [discriminate|].
  intros He. injection He as <-. simpl. intros Ht. injection Ht as <-.
  split; [reflexivity|].
  apply sort_by_start_forall, (load_turn_rows_times turn_rows), Hl.
Qed.

Section TurnLoaderExamples.
#[local] Existing Instance example_builtins.

Lemma loaded_turns_start_before_end_witness :
  exists turns,
    ep_turns episode_100 = None /\
    load_turns_into_episode episode_100 [late_turn_row 200]
      = inr (mkEpisode 100 (Some turns)) /\
    duration_seconds (mkEpisode 100 (Some turns)) = duration_seconds episode_100 /\
    Forall turn_times_ok turns.
Proof.
  eexists. split; [reflexivity|]. split; [vm_compute; reflexivity|].
  apply (loaded_turns_start_before_end episode_100 (mkEpisode 100 _) [late_turn_row 200]).
  - reflexivity.
  - vm_compute. reflexivity.
  - reflexivity.
Defined.

(** C6 fails as stated: in an episode of 100 seconds, the loader keeps
    a turn from 0 to 200, and more generally from 0 to any positive
    [end_time], however far past the episode's duration it ends. *)
Lemma loaded_turn_past_duration_kept :
  load_turns_into_episode episode_100 [late_turn_row 200]
    = inr (mkEpisode 100 (Some [mkTurn [PStr "A"] "hello" 0 200 200 0%Z])) /\
  (200 > duration_seconds episode_100)%Q /\
  forall end_time : Q, (0 < end_time)%Q ->
    load_turns_into_episode episode_100 [late_turn_row end_time]
      = inr (mkEpisode 100 (Some [mkTurn [PStr "A"] "hello" 0 end_time end_time 0%Z])).
Proof.
  split; [vm_compute; reflexivity|]. split; [vm_compute; reflexivity|].
  intros end_time Hpos. cbn.
  rewrite float_of_int_exact by (apply Z.leb_le; reflexivity). cbn.
  repeat match goal with
  | |- context [Qle_bool ?a ?b] =>
      let E := fresh "E" in destruct (Qle_bool a b) eqn:E;
      [apply Qle_bool_iff in E; exfalso|]
  | |- context [Qlt_le_dec ?a ?b] =>
      let E := fresh "E" in destruct (Qlt_le_dec a b) as [E|E]; [exfalso|]
  end.
  all: try (vm_compute; reflexivity).
  all: try (unfold inject_Z, Qle, Qlt in *; simpl in *; lia).
Qed.

End TurnLoaderExamples.

Lemma group_ep_rows_respeak (f : text_row -> list string) (rows : list text_row) :
  group_ep_rows (map (respeak f) rows) = group_ep_rows rows.
Proof.
  unfold group_ep_rows. rewrite length_map.
  generalize (@nil (string * list nat)) as acc.
  induction (seq 0 (length rows)) as [|i is IH]; intros acc; simpl; [reflexivity|].
  rewrite list_lookup_fmap. destruct (rows !! i); simpl; apply IH.
Qed.

Lemma row_tc_respeak (f : text_row -> list string) (rows : list text_row) (idx : nat) :
  row_tc (map (respeak f) rows) idx = row_tc rows idx.
Proof.
  unfold row_tc. rewrite list_lookup_fmap. destruct (rows !! idx); reflexivity.
Qed.

(** C5: the builder's [unique_speaker_count] is the number of distinct
    [turn_count] values of the episode, not the number of distinct
    speakers: three turns by the single speaker ["A"] give 3, and the
    counts do not change whatever the [speaker] column holds. *)
Theorem unique_speaker_count_counts_turn_counts :
  episode_unique_speaker_counts one_speaker_rows = [("e1", 3)] /\
  distinct_speakers one_speaker_rows "e1" = 1 /\
  forall (f : text_row -> list string) (rows : list text_row),
    episode_unique_speaker_counts (map (respeak f) rows)
      = episode_unique_speaker_counts rows.
Proof.
  split; [vm_compute; reflexivity|]. split; [vm_compute; reflexivity|].
  intros f rows. unfold episode_unique_speaker_counts.
  rewrite group_ep_rows_respeak. apply map_ext. intros [eid idxs]. simpl.
  unfold unique_speaker_count.
  rewrite (map_ext (row_tc (map (respeak f) rows)) (row_tc rows)); [reflexivity|].
  intros idx. apply row_tc_respeak.
Qed.


(** ** Lemmas on [TurnWindow], window statistics and distributions *)

Lemma py_slice_split_at {A} (l : list A) (k : Z) :
  0 <= k ->
  py_slice l 0 k ++ py_slice l k (Z.of_nat (length l)) = l.
Proof.
  intros Hk. unfold py_slice, py_norm_index. zcase; try lia.
  rewrite (Z.min_l 0) by lia. rewrite Z.min_id, drop_0.
  destruct (Z.leb_spec k (Z.of_nat (length l))).
  - rewrite Z.min_l by lia.
    replace (Z.to_nat (Z.of_nat (length l)) - Z.to_nat k)%nat
      with (length (drop (Z.to_nat k) l)) by (rewrite length_drop; lia).
    rewrite firstn_all. replace (Z.to_nat k - Z.to_nat 0)%nat with (Z.to_nat k) by lia.
    apply take_drop.
  - rewrite Z.min_r by lia. rewrite (drop_ge l) by lia. rewrite take_nil, app_nil_r.
    apply take_ge. lia.
Qed.

Lemma sw_window_lookup {T} (ts : list T) (n w v tw : Z) (k : nat) (win : TurnWindow) :
  map (sw_make_window ts 0 n w v tw) (map Z.of_nat (seq 0 (Z.to_nat tw))) !! k = Some win ->
  (k < Z.to_nat tw)%nat /\ win = sw_make_window ts 0 n w v tw (Z.of_nat k).
Proof.
  rewrite !list_lookup_fmap. destruct (seq 0 (Z.to_nat tw) !! k) as [j|] eqn:Hj;
    [|discriminate].
  apply lookup_seq in Hj as [-> Hlt]. simpl. intros Hw. injection Hw as <-. auto.
Qed.

Section DistIncr.

Definition opt_add (o : option Z) (c : nat) : option Z :=
  match o, c with
  | o, O => o
  | Some a, c => Some (a + Z.of_nat c)
  | None, c => Some (Z.of_nat c)
  end.

Lemma fold_dist_incr (ks : list string) (m : gmap string Z) (r : string) :
  fold_left dist_incr ks m !! r = opt_add (m !! r) (length (List.filter (String.eqb r) ks)).
Proof.
  revert m. induction ks as [|k ks IH]; intros m; simpl.
  - destruct (m !! r); reflexivity.
  - rewrite IH. unfold dist_incr. destruct (String.eqb_spec r k) as [<-|Hne]; simpl.
    + rewrite lookup_insert_eq. destruct (m !! r) as [a|];
        destruct (length (List.filter (String.eqb r) ks)) eqn:E; simpl; f_equal; lia.
    + rewrite lookup_insert_ne by congruence. reflexivity.
Qed.

End DistIncr.

Lemma sublist_filter_impl {A} (p q : A -> bool) (l : list A) :
  (forall x, In x l -> p x = true -> q x = true) ->
  sublist (List.filter p l) (List.filter q l).
Proof.
  induction l as [|x l IH]; intros Hpq; simpl; [constructor|].
  destruct (p x) eqn:Hp.
  - rewrite (Hpq x (or_introl eq_refl) Hp). apply sublist_skip.
    apply IH. intros y Hy. apply Hpq. now right.
  - destruct (q x).
    + apply sublist_cons. apply IH. intros y Hy. apply Hpq. now right.
    + apply IH. intros y Hy. apply Hpq. now right.
Qed.

Lemma sublist_filter_self {A} (p : A -> bool) (l : list A) :
  sublist (List.filter p l) l.
Proof.
  induction l as [|x l IH]; simpl; [constructor|].
  destruct (p x); [apply sublist_skip|apply sublist_cons]; exact IH.
Qed.

(** X1: for every [TurnWindow], [overlap_turns] followed by [new_turns]
    is the window's turn list: the two properties split [turns] at
    [overlap_size] (or leave it whole on the first window or without
    overlap). *)
Theorem overlap_turns_app_new_turns {T} (w : @TurnWindow T) :
  overlap_turns w ++ new_turns w = tw_turns w /\
  Z.of_nat (length (overlap_turns w)) + Z.of_nat (length (new_turns w)) = tw_size w.
Proof.
  assert (H : overlap_turns w ++ new_turns w = tw_turns w).
  { unfold overlap_turns, new_turns.
    destruct ((0 <? overlap_size w) && negb (is_first w)) eqn:Hc; [|reflexivity].
    apply andb_true_iff in Hc as [Hc _]. apply Z.ltb_lt in Hc.
    apply py_slice_split_at. lia. }
  split; [exact H|]. unfold tw_size. rewrite <- H, length_app. lia.
Qed.

(** X2: with the default indices, on [n >= 1] turns and [0 <= v < w], every
    window of [sliding_window] holds [min(w, n)] turns, exactly the last
    window has [is_last], and the [overlap_turns] of each window after the
    first are the last [v] turns of the previous window. *)
Theorem sliding_window_shapes {T} (ts : list T) (w v : Z) (wins : list TurnWindow) :
  (1 <= length ts)%nat -> 0 <= v < w ->
  sliding_window true ts w v None None = inr wins ->
  (forall k win, wins !! k = Some win ->
     length (tw_turns win) = Nat.min (Z.to_nat w) (length ts) /\
     (is_last win = true <-> S k = length wins)) /\
  (forall k win win', wins !! k = Some win -> wins !! S k = Some win' ->
     overlap_turns win' = drop (Z.to_nat (w - v)) (tw_turns win)).
Proof.
  intros Hn Hv Hsw. rewrite sliding_window_default_range in Hsw by assumption.
  injection Hsw as <-.
  remember (Z.of_nat (length ts)) as n eqn:Hn_def.
  set (tw := if n <=? w then 1 else (n - w) / (w - v) + 1).
  assert (Htw : 1 <= tw) by (subst tw; zcase; [lia|];
    pose proof (Z.div_pos (n - w) (w - v) ltac:(lia) ltac:(lia)); lia).
  assert (Hfit : forall k, 0 <= k < tw -> n <= w \/ k * (w - v) + w <= n).
  { intros k Hk. subst tw. destruct (Z.leb_spec n w) as [Hle|Hgt]; [now left|right].
    pose proof (Z.mul_div_le (n - w) (w - v) ltac:(lia)).
    assert (k <= (n - w) / (w - v)) by lia. nia. }
  rewrite length_map, length_map, length_seq.
  split.
  - intros k win Hk. apply sw_window_lookup in Hk as [Hk ->].
    split.
    + destruct (Hfit (Z.of_nat k) ltac:(lia)) as [Hle|Hle].
      * assert (tw = 1) by (subst tw; zcase; lia).
        assert (k = 0%nat) by lia. subst k. unfold sw_make_window; simpl.
        rewrite Z.add_0_l, Z.min_r by lia.
        rewrite py_slice_take_drop by lia. rewrite drop_0, take_ge by lia. lia.
      * subst n. rewrite sw_turns_within by lia. rewrite length_take, length_drop. lia.
    + unfold is_last, sw_make_window; simpl. rewrite Z.eqb_eq. lia.
  - intros k win win' Hk Hk'.
    apply sw_window_lookup in Hk as [Hk ->]. apply sw_window_lookup in Hk' as [Hk' ->].
    destruct (Hfit (Z.of_nat (S k)) ltac:(lia)) as [Hle|Hle].
    { assert (tw = 1) by (subst tw; zcase; lia). lia. }
    subst n. rewrite (sw_turns_within ts w v Hv _ (Z.of_nat k)) by lia.
    unfold overlap_turns.
    rewrite (sw_turns_within ts w v Hv _ (Z.of_nat (S k))) by lia.
    unfold is_first, sw_make_window; simpl.
    destruct (Z.ltb_spec 0 (Z.pos (Pos.of_succ_nat k))); [|lia].
    destruct (Z.eqb_spec (Z.pos (Pos.of_succ_nat k)) 0); [lia|].
    simpl.
    destruct (Z.ltb_spec 0 v) as [Hv0|Hv0]; simpl.
    + rewrite py_slice_take_drop by (rewrite ?length_take, ?length_drop; nia).
      rewrite drop_0.
      set (X := drop (Z.to_nat (Z.of_nat k * (w - v))) ts).
      replace (drop (Z.to_nat (w - v)) (take (Z.to_nat w) X))
        with (take (Z.to_nat v) (drop (Z.to_nat (w - v)) X)).
      2: { rewrite take_drop_commute. f_equal. f_equal. lia. }
      subst X. rewrite drop_drop, take_take. f_equal; [lia|f_equal; nia].
    + assert (v = 0) by lia. subst v. symmetry. apply drop_ge.
      rewrite length_take. lia.
Qed.

(** X3: [get_window_statistics] reports as [total_windows] the number of
    windows that [sliding_window] yields with the default indices, for
    [n >= 1] turns and [0 <= v < w]; on an episode with no turns it still
    reports one window, where [sliding_window] raises [ValueError]. *)
Theorem window_statistics_total_windows {T} (dur : T -> Q) (ts : list T) (w v : Z) :
  0 <= v < w ->
  (forall st wins, (1 <= length ts)%nat ->
     get_window_statistics dur true ts w v = inr st ->
     sliding_window true ts w v None None = inr wins ->
     ws_total_windows st = Z.of_nat (length wins)) /\
  (ts = [] ->
     (exists st, get_window_statistics dur true ts w v = inr st /\ ws_total_windows st = 1) /\
     sliding_window true ts w v None None = inl ValueError).
Proof.
  intros Hv. split.
  - intros st wins Hn Hst Hsw.
    rewrite sliding_window_default_range in Hsw by assumption. injection Hsw as <-.
    unfold get_window_statistics in Hst. simpl in Hst.
    destruct (Z.leb_spec w v); [lia|]. injection Hst as <-. simpl.
    rewrite !length_map, length_seq.
    set (n := Z.of_nat (length ts)).
    destruct (Z.leb_spec n w) as [Hle|Hgt].
    + assert ((n - w) / (w - v) <= 0).
      { apply Z.div_le_upper_bound; lia. }
      lia.
    + pose proof (Z.div_pos (n - w) (w - v) ltac:(lia) ltac:(lia)). lia.
  - intros ->. split.
    + eexists. split; [unfold get_window_statistics; simpl;
        destruct (Z.leb_spec w v); [lia|reflexivity]|].
      simpl. assert ((0 - w) / (w - v) <= 0).
      { apply Z.div_le_upper_bound; lia. }
      lia.
    + unfold sliding_window; simpl. zcase; try lia; reflexivity.
Qed.

(** X4: on an episode loaded by [_load_turns_into_episode], the turns that
    [get_turns_by_time_range] returns with [STRICT] are a sub-list of
    those it returns with [INCLUDE_FULL_TURNS], and both are sub-lists of
    the episode's turns. *)
Theorem time_range_strict_within_full `{PyBuiltins}
    (overlaps_with : Turn -> Turn -> bool) (episode episode' : Episode)
    (turn_rows : list (list (string * pyval))) (s e : Q) (strict full : list Turn)
    (turns : list Turn) :
  ep_turns episode = None ->
  load_turns_into_episode episode turn_rows = inr episode' ->
  ep_turns episode' = Some turns ->
  get_turns_by_time_range overlaps_with episode' s e STRICT = inr strict ->
  get_turns_by_time_range overlaps_with episode' s e INCLUDE_FULL_TURNS = inr full ->
  sublist strict full /\ sublist full turns.
Proof.
  intros Hnone Hload Hts Hs Hf.
  assert (Hok : Forall turn_times_ok turns).
  { unfold load_turns_into_episode in Hload. rewrite Hnone in Hload.
    destruct (load_turn_rows turn_rows) as [err|l] eqn:Hl; [discriminate|].
    injection Hload as <-. simpl in Hts. injection Hts as <-.
    apply sort_by_start_forall, (load_turn_rows_times turn_rows), Hl. }
  unfold get_turns_by_time_range in Hs, Hf. rewrite Hts in Hs, Hf.
  injection Hs as <-. injection Hf as <-. split; [|apply sublist_filter_self].
  apply sublist_filter_impl. intros t Hin.
  rewrite List.Forall_forall in Hok. destruct (Hok t Hin) as [H0 Hlt].
  generalize (if Qlt_le_dec s 0 then 0%Q else s) as s'.
  generalize (if Qlt_le_dec (duration_seconds episode') e
              then duration_seconds episode' else e) as e'.
  intros e' s' Hp. apply andb_true_iff in Hp as [Hp1 Hp2].
  apply Qle_bool_iff in Hp1, Hp2.
  apply andb_true_iff. split; apply negb_true_iff.
  - destruct (Qle_bool e' (t_start_time t)) eqn:E; [|reflexivity].
    apply Qle_bool_iff in E. exfalso. apply (Qlt_irrefl (t_start_time t)).
    apply (Qlt_le_trans _ _ _ Hlt). apply (Qle_trans _ _ _ Hp2 E).
  - destruct (Qle_bool (t_end_time t) s') eqn:E; [|reflexivity].
    apply Qle_bool_iff in E. exfalso. apply (Qlt_irrefl (t_start_time t)).
    apply (Qlt_le_trans _ _ _ Hlt). apply (Qle_trans _ _ _ E Hp1).
Qed.

(** X5: [get_role_distribution] maps each role [r] to the number of turns
    whose [inferred_speaker_role or "unknown"] is [r], and has no key
    for a role no turn has; [get_speaker_distribution] maps each speaker
    to the number of its occurrences in the turns' speaker lists. *)
Theorem distributions_count {T} (role_of : T -> option string)
    (speaker_of : T -> list string) (turns : list T) (r : string) :
  get_role_distribution role_of turns !! r
    = opt_add None (length (List.filter (String.eqb r) (map (role_key ∘ role_of) turns))) /\
  get_speaker_distribution speaker_of turns !! r
    = opt_add None (length (List.filter (String.eqb r) (concat (map speaker_of turns)))).
Proof.
  split.
  - unfold get_role_distribution.
    replace (fold_left (fun m t => dist_incr m (role_key (role_of t))) turns ∅)
      with (fold_left dist_incr (map (role_key ∘ role_of) turns) ∅).
    + rewrite fold_dist_incr. reflexivity.
    + generalize (∅ : gmap string Z). induction turns as [|t l IH]; intros m;
        simpl; [reflexivity|]. apply IH.
  - unfold get_speaker_distribution.
    replace (fold_left (fun m t => fold_left dist_incr (speaker_of t) m) turns ∅)
      with (fold_left dist_incr (concat (map speaker_of turns)) ∅).
    + rewrite fold_dist_incr. reflexivity.
    + generalize (∅ : gmap string Z). induction turns as [|t l IH]; intros m;
        simpl; [reflexivity|]. rewrite fold_left_app. apply IH.
Qed.

Section EpisodeMoreExamples.
#[local] Existing Instance example_builtins.

Lemma sliding_window_shapes_witness :
  exists wins, sliding_window true [1;2;3;4;5]%nat 3 1 None None = inr wins /\
  (forall k win, wins !! k = Some win ->
     length (tw_turns win) = Nat.min (Z.to_nat 3) (length [1;2;3;4;5]%nat) /\
     (is_last win = true <-> S k = length wins)) /\
  (forall k win win', wins !! k = Some win -> wins !! S k = Some win' ->
     overlap_turns win' = drop (Z.to_nat (3 - 1)) (tw_turns win)).
Proof.
  eexists. split; [vm_compute; reflexivity|].
  apply (sliding_window_shapes [1;2;3;4;5]%nat 3 1); [simpl; lia|lia|vm_compute; reflexivity].
Defined.

Lemma window_statistics_total_windows_witness :
  0 <= 0 < 2 /\
  (forall st wins, (1 <= length [1;2;3]%nat)%nat ->
     get_window_statistics (fun _ => 1%Q) true [1;2;3]%nat 2 0 = inr st ->
     sliding_window true [1;2;3]%nat 2 0 None None = inr wins ->
     ws_total_windows st = Z.of_nat (length wins)) /\
  ([1;2;3]%nat = [] ->
     (exists st, get_window_statistics (fun _ => 1%Q) true [1;2;3]%nat 2 0 = inr st /\
                 ws_total_windows st = 1) /\
     sliding_window true [1;2;3]%nat 2 0 None None = inl ValueError).
Proof.
  split; [lia|]. apply (window_statistics_total_windows (fun _ => 1%Q) [1;2;3]%nat 2 0). lia.
Defined.

Lemma time_range_strict_within_full_witness :
  exists episode' strict full turns,
    ep_turns episode_60 = None /\
    load_turns_into_episode episode_60 two_turn_rows = inr episode' /\
    ep_turns episode' = Some turns /\
    get_turns_by_time_range (fun _ _ => true) episode' 5 20 STRICT = inr strict /\
    get_turns_by_time_range (fun _ _ => true) episode' 5 20 INCLUDE_FULL_TURNS = inr full /\
    sublist strict full /\ sublist full turns.
Proof.
  do 4 eexists.
  split; [reflexivity|]. split; [vm_compute; reflexivity|].
  split; [reflexivity|]. split; [vm_compute; reflexivity|].
  split; [vm_compute; reflexivity|].
  eapply (time_range_strict_within_full (fun _ _ => true) episode_60 _ two_turn_rows 5 20);
    [reflexivity|vm_compute; reflexivity|reflexivity|vm_compute; reflexivity|
     vm_compute; reflexivity].
Defined.

End EpisodeMoreExamples.

(** ** Catalog lookups: lemmas *)

Lemma pid_ep_idxs_go_lookup (pids : list string) (i : nat) (m : gmap string (list nat))
    (k : string) :
  match pid_ep_idxs_go pids i m !! k with Some l => l | None => [] end =
  match m !! k with Some l => l | None => [] end ++
  map fst (List.filter (fun jp => String.eqb (snd jp) k) (combine (seq i (length pids)) pids)).
Proof.
  revert i m. induction pids as [|p rest IH]; intros i m; simpl.
  - rewrite app_nil_r. reflexivity.
  - rewrite IH. destruct (String.eqb_spec p k) as [->|Hne]; simpl.
    + rewrite lookup_insert_eq. rewrite <- app_assoc. reflexivity.
    + rewrite lookup_insert_ne by done. reflexivity.
Qed.

Lemma map_err_row_at_filter {Row : Type} (pid_of : Row -> string) (df l : list Row)
    (k : string) (i : nat) :
  drop i df = l ->
  map_err (row_at df) (map fst (List.filter (fun jp => String.eqb (snd jp) k)
                                  (combine (seq i (length l)) (map pid_of l))))
  = inr (List.filter (fun r => String.eqb (pid_of r) k) l).
Proof.
  revert i. induction l as [|r l IH]; intros i Hd; simpl; [reflexivity|].
  assert (Hr : df !! i = Some r).
  { assert (H : drop i df !! 0%nat = Some r) by (rewrite Hd; reflexivity).
    rewrite lookup_drop, Nat.add_0_r in H. exact H. }
  assert (Hd' : drop (S i) df = l).
  { replace (S i) with (i + 1)%nat by lia. rewrite <- drop_drop, Hd. reflexivity. }
  destruct (String.eqb (pid_of r) k); simpl.
  - unfold row_at at 1. rewrite Hr, (IH (S i) Hd'). reflexivity.
  - exact (IH (S i) Hd').
Qed.

Lemma py_dict_get_set {V} (d : list (string * V)) (k k' : string) (v : V) :
  py_dict_get (py_dict_set d k v) k' = if String.eqb k k' then Some v else py_dict_get d k'.
Proof.
  induction d as [|[k0 v0] d IH]; simpl.
  - destruct (String.eqb k k'); reflexivity.
  - destruct (String.eqb_spec k0 k) as [->|Hne]; simpl.
    + destruct (String.eqb k k'); reflexivity.
    + rewrite IH. destruct (String.eqb_spec k0 k') as [->|Hne'];
        destruct (String.eqb_spec k k') as [->|]; congruence.
Qed.

Lemma py_dict_set_in {V} (d : list (string * V)) (k : string) (v : V) kv :
  In kv (py_dict_set d k v) -> kv = (k, v) \/ In kv d.
Proof.
  induction d as [|[k0 v0] d IH]; simpl; intros H.
  - destruct H as [<-|[]]. left; reflexivity.
  - destruct (String.eqb_spec k0 k) as [->|Hne]; simpl in H.
    + destruct H as [<-|H]; [left; reflexivity|right; right; exact H].
    + destruct H as [<-|H]; [right; left; reflexivity|].
      destruct (IH H) as [->|H']; [left; reflexivity|right; right; exact H'].
Qed.

Lemma py_dict_get_in {V} (d : list (string * V)) (k : string) (v : V) :
  py_dict_get d k = Some v -> In (k, v) d.
Proof.
  induction d as [|[k0 v0] d IH]; simpl; [discriminate|].
  destruct (String.eqb_spec k0 k) as [->|_].
  - intros [= ->]. left; reflexivity.
  - intros H. right. auto.
Qed.

Lemma py_dict_set_nodup {V} (d : list (string * V)) (k : string) (v : V) :
  List.NoDup (map fst d) -> List.NoDup (map fst (py_dict_set d k v)).
Proof.
  induction d as [|[k0 v0] d IH]; simpl; intros Hnd.
  - constructor; [intros []|constructor].
  - inversion Hnd as [|? ? Hn Hnd']; subst.
    destruct (String.eqb_spec k0 k) as [->|Hne]; simpl; [constructor; assumption|].
    constructor; [|apply IH; assumption].
    intros Hin. apply in_map_iff in Hin as ([k1 v1] & Heq & Hin). simpl in Heq. subst k1.
    destruct (py_dict_set_in d k v (k0, v1) Hin) as [[= -> _]|Hin'].
    + apply Hne. reflexivity.
    + apply Hn. apply in_map_iff. exists (k0, v1). split; [reflexivity|exact Hin'].
Qed.

Lemma py_dict_get_nodup_in {V} (d : list (string * V)) (k : string) (v : V) :
  List.NoDup (map fst d) -> In (k, v) d -> py_dict_get d k = Some v.
Proof.
  induction d as [|[k0 v0] d IH]; simpl; intros Hnd Hin; [destruct Hin|].
  inversion Hnd as [|? ? Hn Hnd']; subst.
  destruct Hin as [[= -> ->]|Hin]; [rewrite String.eqb_refl; reflexivity|].
  destruct (String.eqb_spec k0 k) as [->|_]; [|apply IH; assumption].
  exfalso. apply Hn. apply in_map_iff. exists (k, v). split; [reflexivity|exact Hin].
Qed.

Lemma find_app {A} (f : A -> bool) (l1 l2 : list A) :
  List.find f (l1 ++ l2) = match List.find f l1 with Some x => Some x | None => List.find f l2 end.
Proof.
  induction l1 as [|a l1 IH]; simpl; [reflexivity|]. destruct (f a); [reflexivity|exact IH].
Qed.

Section DictFold.
Context {Row V : Type} (key : Row -> string) (val : Row -> V).

(** A dict comprehension keeps, for each key, the value of the last row
    with that key. *)
Lemma py_dict_fold_get (l : list Row) (d : list (string * V)) (k : string) :
  py_dict_get (fold_left (fun d r => py_dict_set d (key r) (val r)) l d) k =
  match List.find (fun r => String.eqb (key r) k) (rev l) with
  | Some r => Some (val r)
  | None => py_dict_get d k
  end.
Proof.
  revert d. induction l as [|r l IH]; intros d; simpl; [reflexivity|].
  rewrite IH, find_app. simpl. rewrite py_dict_get_set.
  destruct (List.find (fun r0 => String.eqb (key r0) k) (rev l)); [reflexivity|].
  destruct (String.eqb (key r) k); reflexivity.
Qed.

Lemma py_dict_fold_in (l : list Row) (d : list (string * V)) kv :
  In kv (fold_left (fun d r => py_dict_set d (key r) (val r)) l d) ->
  In kv d \/ exists r, In r l /\ kv = (key r, val r).
Proof.
  revert d. induction l as [|r l IH]; intros d H; simpl in H; [left; exact H|].
  destruct (IH _ H) as [H1|(r' & Hr' & ->)].
  - destruct (py_dict_set_in _ _ _ _ H1) as [->|H2].
    + right. exists r. simpl. auto.
    + left. exact H2.
  - right. exists r'. simpl. auto.
Qed.

End DictFold.

Lemma is_prefix_refl (p : list ascii) : is_prefix p p = true.
Proof.
  induction p as [|a p IH]; simpl; [reflexivity|]. rewrite Ascii.eqb_refl, IH. reflexivity.
Qed.

Lemma py_contains_refl (s : string) : py_contains s s = true.
Proof.
  unfold py_contains. destruct (list_ascii_of_string s) as [|a l]; simpl; [reflexivity|].
  rewrite Ascii.eqb_refl, is_prefix_refl. reflexivity.
Qed.

Lemma catalog_index_nodup {Row : Type} (id_of : Row -> string) (df : list Row)
    (i : nat) (r : Row) :
  NoDup (map id_of df) -> df !! i = Some r -> catalog_index id_of df !! id_of r = Some i.
Proof.
  intros Hnd Hr. unfold catalog_index.
  pose proof (build_index_lookup (map id_of df) (id_of r)) as H.
  assert (Hm : map id_of df !! i = Some (id_of r)) by (rewrite list_lookup_fmap, Hr; reflexivity).
  destruct (build_index (map id_of df) !! id_of r) as [j|].
  - f_equal. eapply NoDup_lookup; eauto.
  - exfalso. apply H. eapply list_elem_of_lookup_2. exact Hm.
Qed.

(** ** Set-valued indexes: lemmas *)

Lemma build_set_index_go (rows : list (string * string)) d (k : string) :
  match py_dict_get (fold_left (fun d kv => setdefault_add d (fst kv) (snd kv)) rows d) k with
  | Some s => s | None => ∅ end
  = (match py_dict_get d k with Some s => s | None => ∅ end) ∪
    list_to_set (map snd (List.filter (fun kv => String.eqb (fst kv) k) rows)).
Proof.
  revert d. induction rows as [|[k0 p] rows IH]; intros d; simpl.
  - set_solver.
  - rewrite IH. unfold setdefault_add. rewrite py_dict_get_set.
    destruct (String.eqb_spec k0 k) as [->|]; simpl; set_solver.
Qed.

Lemma build_set_index_elem (rows : list (string * string)) (k pid : string) :
  pid ∈ (match py_dict_get (build_set_index rows) k with Some s => s | None => ∅ end)
  <-> In (k, pid) rows.
Proof.
  unfold build_set_index. rewrite build_set_index_go. simpl.
  rewrite elem_of_union, elem_of_list_to_set, list_elem_of_In, in_map_iff.
  split.
  - intros [H|([k' p] & Hp & Hin)]; [set_solver|].
    apply filter_In in Hin as [Hin Hk]. simpl in Hp, Hk. apply String.eqb_eq in Hk. subst. exact Hin.
  - intros Hin. right. exists (k, pid). split; [reflexivity|].
    apply filter_In. split; [exact Hin|]. apply String.eqb_refl.
Qed.

Lemma build_set_index_nodup (rows : list (string * string)) :
  List.NoDup (map fst (build_set_index rows)).
Proof.
  unfold build_set_index.
  assert (H : forall d, List.NoDup (map fst d) ->
    List.NoDup (map fst (fold_left (fun d kv => setdefault_add d (fst kv) (snd kv)) rows d))).
  { induction rows as [|kv rows IH]; intros d Hd; simpl; [exact Hd|].
    apply IH. unfold setdefault_add. apply py_dict_set_nodup. exact Hd. }
  apply H. constructor.
Qed.

Lemma build_set_index_keys (rows : list (string * string)) (k : string) (s : gset string) :
  In (k, s) (build_set_index rows) -> exists pid, In (k, pid) rows.
Proof.
  unfold build_set_index.
  assert (H : forall d, In (k, s) (fold_left (fun d kv => setdefault_add d (fst kv) (snd kv)) rows d) ->
    (exists s', In (k, s') d) \/ exists pid, In (k, pid) rows).
  { induction rows as [|[k0 p] rows IH]; intros d Hin; simpl in Hin; [left; eauto|].
    destruct (IH _ Hin) as [(s' & Hs')|(pid & Hpid)].
    - unfold setdefault_add in Hs'. destruct (py_dict_set_in _ _ _ _ Hs') as [[= -> _]|Hd].
      + right. exists p. simpl. auto.
      + left. eauto.
    - right. exists pid. simpl. auto. }
  intros Hin. destruct (H [] Hin) as [(s' & [])|Hr]. exact Hr.
Qed.

(** ** Stable sort by key: lemmas *)

Lemma Sorted_weaken {B} (R1 R2 : B -> B -> Prop) (l : list B) :
  (forall a b, R1 a b -> R2 a b) -> Sorted R1 l -> Sorted R2 l.
Proof.
  intros HR Hs. induction Hs as [|a l Hs IH Hhd]; constructor; [exact IH|].
  destruct Hhd; constructor; auto.
Qed.

Lemma filter_nil_forall {B} (f : B -> bool) (l : list B) :
  (forall z, In z l -> f z = false) -> List.filter f l = [].
Proof.
  induction l as [|a l IH]; simpl; intros H; [reflexivity|].
  rewrite (H a (or_introl eq_refl)). apply IH. intros z Hz. apply H. right. exact Hz.
Qed.

Section SortByKey.
Context {A : Type} (key : A -> Q).

Lemma insert_by_key_perm (x : A) (l : list A) : insert_by_key key x l ≡ₚ x :: l.
Proof.
  induction l as [|y l IH]; simpl; [reflexivity|].
  destruct (Qle_bool (key y) (key x)); [|reflexivity].
  rewrite IH. apply perm_swap.
Qed.

Lemma insert_by_key_sorted (x : A) (l : list A) :
  Sorted (fun a b => (key a <= key b)%Q) l ->
  Sorted (fun a b => (key a <= key b)%Q) (insert_by_key key x l).
Proof.
  induction l as [|y l IH]; simpl; intros Hs; [repeat constructor|].
  destruct (Qle_bool (key y) (key x)) eqn:Hle.
  - apply Qle_bool_iff in Hle. inversion Hs as [|? ? Hs' Hhd]; subst.
    constructor; [apply IH; exact Hs'|].
    destruct l as [|z l]; simpl; [constructor; exact Hle|].
    destruct (Qle_bool (key z) (key x)).
    + constructor. inversion Hhd; assumption.
    + constructor. exact Hle.
  - constructor; [exact Hs|]. constructor.
    apply Qlt_le_weak, Qnot_le_lt. intros H. apply Qle_bool_iff in H. congruence.
Qed.

Lemma insert_by_key_filter (x : A) (l : list A) (q : Q) :
  StronglySorted (fun a b => (key a <= key b)%Q) l ->
  List.filter (fun r => Qeq_bool (key r) q) (insert_by_key key x l) =
  List.filter (fun r => Qeq_bool (key r) q) l ++ List.filter (fun r => Qeq_bool (key r) q) [x].
Proof.
  induction l as [|y l IH]; intros Hs; [reflexivity|]. cbn [insert_by_key].
  inversion Hs as [|? ? Hs' Hall]; subst.
  destruct (Qle_bool (key y) (key x)) eqn:Hle.
  - simpl. rewrite (IH Hs'). destruct (Qeq_bool (key y) q); reflexivity.
  - assert (Hlt : (key x < key y)%Q).
    { apply Qnot_le_lt. intros H. apply Qle_bool_iff in H. congruence. }
    assert (Hnil : Qeq_bool (key x) q = true ->
              List.filter (fun r => Qeq_bool (key r) q) (y :: l) = []).
    { intros Hx. apply Qeq_bool_iff in Hx. apply filter_nil_forall. intros z Hz.
      assert (Hxz : (key x < key z)%Q).
      { destruct Hz as [<-|Hz]; [exact Hlt|].
        apply (Qlt_le_trans _ (key y)); [exact Hlt|].
        exact (proj1 (List.Forall_forall _ _) Hall z Hz). }
      destruct (Qeq_bool (key z) q) eqn:Hz'; [|reflexivity].
      apply Qeq_bool_iff in Hz'. rewrite Hz', <- Hx in Hxz.
      destruct (Qlt_irrefl _ Hxz). }
    remember (y :: l) as m eqn:Hm. simpl.
    destruct (Qeq_bool (key x) q) eqn:Hx.
    + rewrite (Hnil eq_refl). reflexivity.
    + rewrite app_nil_r. reflexivity.
Qed.

Lemma sort_by_key_go (l acc : list A) :
  Sorted (fun a b => (key a <= key b)%Q) acc ->
  Sorted (fun a b => (key a <= key b)%Q) (fold_left (fun acc x => insert_by_key key x acc) l acc) /\
  fold_left (fun acc x => insert_by_key key x acc) l acc ≡ₚ acc ++ l /\
  forall q, List.filter (fun r => Qeq_bool (key r) q)
              (fold_left (fun acc x => insert_by_key key x acc) l acc) =
            List.filter (fun r => Qeq_bool (key r) q) acc ++
            List.filter (fun r => Qeq_bool (key r) q) l.
Proof.
  revert acc. induction l as [|x l IH]; intros acc Hs; simpl.
  - split; [exact Hs|]. split; [rewrite app_nil_r; reflexivity|].
    intros q. rewrite app_nil_r. reflexivity.
  - destruct (IH (insert_by_key key x acc) (insert_by_key_sorted x acc Hs)) as (Hs' & Hp & Hf).
    split; [exact Hs'|]. split.
    + rewrite Hp, insert_by_key_perm. simpl. apply Permutation_middle.
    + intros q. rewrite Hf, insert_by_key_filter.
      * simpl. rewrite <- app_assoc. destruct (Qeq_bool (key x) q); reflexivity.
      * apply Sorted_StronglySorted; [|exact Hs].
        intros a b c. apply Qle_trans.
Qed.

(** [sort_by_key] sorts, permutes and keeps the input order of the rows
    with equal keys. *)
Lemma sort_by_key_spec (l : list A) :
  Sorted (fun a b => (key a <= key b)%Q) (sort_by_key key l) /\
  sort_by_key key l ≡ₚ l /\
  forall q, List.filter (fun r => Qeq_bool (key r) q) (sort_by_key key l) =
            List.filter (fun r => Qeq_bool (key r) q) l.
Proof.
  unfold sort_by_key. destruct (sort_by_key_go l [] (Sorted_nil _)) as (Hs & Hp & Hf).
  split; [exact Hs|]. split; [exact Hp|]. intros q. rewrite Hf. reflexivity.
Qed.

End SortByKey.

Lemma Qeq_bool_inject_Z (a n : Z) : Qeq_bool (inject_Z a) (inject_Z n) = Z.eqb a n.
Proof.
  destruct (Z.eqb_spec a n) as [->|Hne].
  - apply Qeq_bool_iff. reflexivity.
  - apply not_true_iff_false. intros H. apply Qeq_bool_iff in H.
    apply (proj1 (inject_Z_injective a n)) in H. contradiction.
Qed.

(** X6: without transcripts, [get_episodes_for_podcast] returns, for the
    index built from the episode catalog, exactly the catalog rows of the
    podcast, in catalog order, and never raises; an unknown podcast gives
    the empty list. *)
Theorem get_episodes_for_podcast_catalog {Row : Type} (pid_of : Row -> string)
    (episode_df : list Row) (podcast_id : string) :
  get_episodes_for_podcast episode_df (build_pid_to_ep_idxs (map pid_of episode_df)) podcast_id
  = inr (List.filter (fun r => String.eqb (pid_of r) podcast_id) episode_df).
Proof.
  unfold get_episodes_for_podcast, build_pid_to_ep_idxs. cbv zeta.
  rewrite pid_ep_idxs_go_lookup, lookup_empty. simpl.
  rewrite length_map. apply map_err_row_at_filter. apply drop_0.
Qed.

(** X7: on a podcast catalog with distinct ids, [get_podcast_by_name] raises
    [NotFoundError] exactly when no lowered title contains the lowered name,
    raises nothing else, and otherwise returns a catalog row whose lowered
    title contains the lowered name, and equals it whenever some title
    matches the name up to case. *)
Theorem get_podcast_by_name_spec {Row : Type} (pid_of title_of : Row -> string)
    (podcast_df : list Row) (name : string) :
  NoDup (map pid_of podcast_df) ->
  let res := get_podcast_by_name podcast_df (catalog_index pid_of podcast_df)
               (title_lower_index pid_of title_of podcast_df) name in
  (res = inl (PyErr NotFoundError) <->
     forall r, In r podcast_df -> py_contains (py_lower name) (py_lower (title_of r)) = false) /\
  (forall e, res = inl e -> e = PyErr NotFoundError) /\
  (forall r, res = inr r ->
     In r podcast_df /\ py_contains (py_lower name) (py_lower (title_of r)) = true /\
     ((exists r', In r' podcast_df /\ py_lower (title_of r') = py_lower name) ->
        py_lower (title_of r) = py_lower name)).
Proof.
  intros Hnd res. subst res.
  set (tidx := title_lower_index pid_of title_of podcast_df).
  assert (Hitem : forall t p, In (t, p) tidx ->
            exists r, In r podcast_df /\ py_lower (title_of r) = t /\ pid_of r = p).
  { intros t p H.
    destruct (py_dict_fold_in (fun r => py_lower (title_of r)) pid_of podcast_df [] (t, p) H)
      as [[]|(r & Hr & Heq)].
    injection Heq as -> ->. eauto. }
  assert (Hkey : forall r, In r podcast_df ->
            exists p, py_dict_get tidx (py_lower (title_of r)) = Some p).
  { intros r Hr. unfold tidx, title_lower_index.
    rewrite (py_dict_fold_get (fun r => py_lower (title_of r)) pid_of).
    match goal with |- context [List.find ?f ?l] => destruct (List.find f l) as [r'|] eqn:Hf end;
      [eauto|].
    exfalso. pose proof (find_none _ _ Hf r (proj1 (in_rev _ _) Hr)) as H.
    simpl in H. rewrite String.eqb_refl in H. discriminate. }
  assert (Hrow : forall r, In r podcast_df -> exists i,
            catalog_index pid_of podcast_df !! pid_of r = Some i /\ row_at podcast_df i = inr r).
  { intros r Hr. apply list_elem_of_In, list_elem_of_lookup_1 in Hr as (i & Hi).
    exists i. split; [apply catalog_index_nodup; assumption|].
    unfold row_at. rewrite Hi. reflexivity. }
  unfold get_podcast_by_name. cbv zeta. fold tidx.
  destruct (py_dict_get tidx (py_lower name)) as [p|] eqn:Hget.
  - apply py_dict_get_in in Hget. destruct (Hitem _ _ Hget) as (r & Hr & Ht & <-).
    destruct (Hrow r Hr) as (i & Hi & Hri). rewrite Hi, Hri. simpl.
    split; [split; [discriminate|]|split; [discriminate|]].
    + intros Hall. specialize (Hall r Hr). rewrite Ht, py_contains_refl in Hall. discriminate.
    + intros r0 [= <-]. split; [exact Hr|]. rewrite Ht.
      split; [apply py_contains_refl|intros _; reflexivity].
  - destruct (List.find (fun kv => py_contains (py_lower name) (fst kv)) tidx)
      as [[t p]|] eqn:Hf.
    + apply find_some in Hf as [Hin Hc]. simpl in Hc.
      destruct (Hitem _ _ Hin) as (r & Hr & Ht & <-).
      destruct (Hrow r Hr) as (i & Hi & Hri). rewrite Hi, Hri. simpl.
      split; [split; [discriminate|]|split; [discriminate|]].
      * intros Hall. specialize (Hall r Hr). rewrite Ht, Hc in Hall. discriminate.
      * intros r0 [= <-]. split; [exact Hr|]. rewrite Ht. split; [exact Hc|].
        intros (r' & Hr' & Ht'). destruct (Hkey r' Hr') as (p' & Hp').
        rewrite Ht', Hget in Hp'. discriminate.
    + split; [split; [intros _|intros _; reflexivity]|split].
      * intros r Hr. destruct (Hkey r Hr) as (p & Hp). apply py_dict_get_in in Hp.
        exact (find_none _ _ Hf _ Hp).
      * intros e [= <-]. reflexivity.
      * intros r H. discriminate.
Qed.

(** X8: [get_podcasts_by_hostname] returns, for the index built from the
    rows of [hostname_index.parquet], exactly the podcast ids listed with
    that hostname; an unknown hostname gives none. *)
Theorem get_podcasts_by_hostname_index (rows : list (string * string)) (hostname pid : string) :
  pid ∈ get_podcasts_by_hostname (build_set_index rows) hostname <-> In (hostname, pid) rows.
Proof.
  unfold get_podcasts_by_hostname. apply build_set_index_elem.
Qed.

(** X9: every podcast id returned by [get_podcasts_by_category] is listed in
    the category index with a category equal to the requested one up to
    case; when no two categories of the index differ only by case, every
    such podcast id is returned. *)
Theorem get_podcasts_by_category_index (rows : list (string * string)) (category : string) :
  (forall pid, pid ∈ get_podcasts_by_category (build_set_index rows) category ->
     exists c, In (c, pid) rows /\ py_lower c = py_lower category) /\
  ((forall c1 p1 c2 p2, In (c1, p1) rows -> In (c2, p2) rows ->
      py_lower c1 = py_lower c2 -> c1 = c2) ->
   forall c pid, In (c, pid) rows -> py_lower c = py_lower category ->
     pid ∈ get_podcasts_by_category (build_set_index rows) category).
Proof.
  pose proof (build_set_index_nodup rows) as Hnd.
  unfold get_podcasts_by_category. cbv zeta.
  destruct (List.find (fun kv => String.eqb (py_lower (fst kv)) (py_lower category))
              (build_set_index rows)) as [[c s]|] eqn:Hf.
  - apply find_some in Hf as [Hin Hc]. simpl in Hc. apply String.eqb_eq in Hc.
    pose proof (py_dict_get_nodup_in _ _ _ Hnd Hin) as Hget.
    split.
    + intros pid Hpid. exists c. split; [|exact Hc].
      apply (build_set_index_elem rows c pid). rewrite Hget. exact Hpid.
    + intros Huniq c' pid Hin' Hc'.
      destruct (build_set_index_keys rows c s Hin) as (p0 & Hp0).
      assert (c = c') as <- by (apply (Huniq c p0 c' pid Hp0 Hin'); congruence).
      pose proof (proj2 (build_set_index_elem rows c pid) Hin') as H.
      rewrite Hget in H. exact H.
  - split; [intros pid Hpid; set_solver|].
    intros _ c pid Hin Hc. exfalso.
    pose proof (proj2 (build_set_index_elem rows c pid) Hin) as H.
    destruct (py_dict_get (build_set_index rows) c) as [s|] eqn:Hget; [|set_solver].
    apply py_dict_get_in in Hget.
    pose proof (find_none _ _ Hf _ Hget) as Hn. simpl in Hn.
    rewrite Hc, String.eqb_refl in Hn. discriminate.
Qed.

(** X10: [get_turn_metrics] raises [IndexNotBuiltError] when the metrics
    file is missing; otherwise it returns the rows of the episode sorted by
    [turn_count], a permutation of them, with rows of equal [turn_count] in
    file order. *)
Theorem get_turn_metrics_sorted {Row : Type} (episode_of : Row -> string)
    (turn_count : Row -> Z) (table : list Row) (episode_id : string) :
  get_turn_metrics episode_of turn_count None episode_id = inl IndexNotBuiltError /\
  exists rows, get_turn_metrics episode_of turn_count (Some table) episode_id = inr rows /\
    Sorted (fun a b => (turn_count a <= turn_count b)%Z) rows /\
    rows ≡ₚ List.filter (fun r => String.eqb (episode_of r) episode_id) table /\
    forall n, List.filter (fun r => Z.eqb (turn_count r) n) rows =
              List.filter (fun r => Z.eqb (turn_count r) n)
                (List.filter (fun r => String.eqb (episode_of r) episode_id) table).
Proof.
  split; [reflexivity|]. unfold get_turn_metrics.
  remember (List.filter (fun r => String.eqb (episode_of r) episode_id) table) as t eqn:Et.
  destruct (sort_by_key_spec (fun r => inject_Z (turn_count r)) t) as (Hs & Hp & Hf).
  assert (Hext : forall n X, List.filter (fun r => Z.eqb (turn_count r) n) X =
            List.filter (fun r => Qeq_bool (inject_Z (turn_count r)) (inject_Z n)) X).
  { intros n X. apply List.filter_ext. intros a. symmetry. apply Qeq_bool_inject_Z. }
  destruct t as [|r l].
  - exists []. split; [reflexivity|]. split; [constructor|]. split; [reflexivity|].
    intros n. reflexivity.
  - exists (sort_by_key (fun r => inject_Z (turn_count r)) (r :: l)).
    split; [reflexivity|]. split.
    + revert Hs. apply Sorted_weaken. intros a b H. rewrite Zle_Qle. exact H.
    + split; [exact Hp|]. intros n. rewrite !Hext. apply Hf.
Qed.

(** X11: without audio, [get_turns_for_episode] returns no rows when the
    text partition is missing; otherwise it returns the rows of the episode
    sorted by [start_time], a permutation of them, with rows of equal
    [start_time] in file order. *)
Theorem get_turns_for_episode_sorted {Row : Type} (episode_of : Row -> string)
    (start_time : Row -> Q) (table : list Row) (episode_id : string) :
  get_turns_for_episode episode_of start_time None episode_id = [] /\
  let rows := get_turns_for_episode episode_of start_time (Some table) episode_id in
  Sorted (fun a b => (start_time a <= start_time b)%Q) rows /\
  rows ≡ₚ List.filter (fun r => String.eqb (episode_of r) episode_id) table /\
  forall q, List.filter (fun r => Qeq_bool (start_time r) q) rows =
            List.filter (fun r => Qeq_bool (start_time r) q)
              (List.filter (fun r => String.eqb (episode_of r) episode_id) table).
Proof.
  split; [reflexivity|]. unfold get_turns_for_episode. cbv zeta.
  remember (List.filter (fun r => String.eqb (episode_of r) episode_id) table) as t eqn:Et.
  destruct (sort_by_key_spec start_time t) as (Hs & Hp & Hf).
  destruct t as [|r l].
  - split; [constructor|]. split; [reflexivity|]. intros q. reflexivity.
  - split; [exact Hs|]. split; [exact Hp|]. exact Hf.
Qed.

Section CatalogExamples.

Lemma get_podcast_by_name_spec_witness :
  NoDup (map fst example_podcasts) /\
  (forall e, get_podcast_by_name example_podcasts (catalog_index fst example_podcasts)
               (title_lower_index fst snd example_podcasts) "news" = inl e ->
             e = PyErr NotFoundError).
Proof.
  assert (Hnd : NoDup (map fst example_podcasts))
    by (apply (bool_decide_unpack _); vm_compute; exact I).
  split; [exact Hnd|].
  pose proof (get_podcast_by_name_spec fst snd example_podcasts "news" Hnd) as H.
  cbv zeta in H. exact (proj1 (proj2 H)).
Defined.

Lemma get_podcasts_by_category_index_witness :
  (forall c1 p1 c2 p2, In (c1, p1) example_category_rows -> In (c2, p2) example_category_rows ->
      py_lower c1 = py_lower c2 -> c1 = c2) /\
  "p3" ∈ get_podcasts_by_category (build_set_index example_category_rows) "news".
Proof.
  assert (Hu : forall c1 p1 c2 p2, In (c1, p1) example_category_rows ->
            In (c2, p2) example_category_rows -> py_lower c1 = py_lower c2 -> c1 = c2).
  { intros c1 p1 c2 p2 H1 H2. simpl in H1, H2.
    destruct H1 as [[= <- <-]|[[= <- <-]|[[= <- <-]|[]]]];
    destruct H2 as [[= <- <-]|[[= <- <-]|[[= <- <-]|[]]]];
    intros Hl; first [reflexivity | vm_compute in Hl; discriminate]. }
  split; [exact Hu|].
  apply (proj2 (get_podcasts_by_category_index example_category_rows "news") Hu "News" "p3").
  - simpl. right; right; left; reflexivity.
  - vm_compute. reflexivity.
Defined.

End CatalogExamples.

(** ** Concordance: lemmas *)

Lemma list_ascii_of_string_append (x y : string) :
  list_ascii_of_string (x ++ y) = list_ascii_of_string x ++ list_ascii_of_string y.
Proof. induction x as [|c x IH]; simpl; [reflexivity|]. rewrite IH. reflexivity. Qed.

Lemma py_split_go_word (w s cur : list ascii) :
  Forall (fun c => py_isspace c = false) w ->
  py_split_go (w ++ s) cur = py_split_go s (rev w ++ cur).
Proof.
  revert cur. induction w as [|c w IH]; intros cur Hw; simpl; [reflexivity|].
  inversion Hw as [|? ? Hc Hw']; subst. rewrite Hc, IH by exact Hw'.
  rewrite <- app_assoc. reflexivity.
Qed.

Lemma py_split_go_words (s cur : list ascii) :
  Forall (fun c => py_isspace c = false) cur -> Forall split_word (py_split_go s cur).
Proof.
  assert (Hone : forall cur, cur <> [] -> Forall (fun c => py_isspace c = false) cur ->
            split_word (string_of_list_ascii (rev cur))).
  { intros c Hne Hc. unfold split_word. rewrite list_ascii_of_string_of_list_ascii.
    split; [|apply Forall_rev; exact Hc].
    intros H. apply Hne. rewrite <- (rev_involutive c), H. reflexivity. }
  revert cur. induction s as [|a s IH]; intros cur Hcur; simpl.
  - destruct cur as [|c cs]; [constructor|]. constructor; [|constructor].
    apply Hone; [discriminate|exact Hcur].
  - destruct (py_isspace a) eqn:Ha.
    + destruct cur as [|c cs]; [apply IH; constructor|].
      constructor; [apply Hone; [discriminate|exact Hcur]|apply IH; constructor].
    + apply IH. constructor; assumption.
Qed.

Lemma py_split_words (s : string) : Forall split_word (py_split s).
Proof. apply py_split_go_words. constructor. Qed.

(** [" ".join] then [split()] gives the words back. *)
Lemma py_split_join (ws : list string) :
  Forall split_word ws -> py_split (py_join " " ws) = ws.
Proof.
  induction ws as [|w ws IH]; intros Hg; [reflexivity|].
  inversion Hg as [|? ? [Hne Hsp] Hg']; subst.
  destruct ws as [|w' ws'].
  - unfold py_split. simpl py_join.
    rewrite <- (app_nil_r (list_ascii_of_string w)), py_split_go_word by exact Hsp.
    rewrite app_nil_r. simpl.
    destruct (rev (list_ascii_of_string w)) as [|c cs] eqn:E.
    + exfalso. apply Hne. rewrite <- (rev_involutive (list_ascii_of_string w)), E. reflexivity.
    + rewrite <- E, rev_involutive, string_of_list_ascii_of_string. reflexivity.
  - assert (Ej : py_join " " (w :: w' :: ws') = (w ++ " " ++ py_join " " (w' :: ws'))%string)
      by reflexivity.
    rewrite Ej. set (j := py_join " " (w' :: ws')). unfold py_split.
    rewrite !list_ascii_of_string_append, py_split_go_word by exact Hsp.
    rewrite app_nil_r.
    destruct (rev (list_ascii_of_string w)) as [|c cs] eqn:E.
    + exfalso. apply Hne. rewrite <- (rev_involutive (list_ascii_of_string w)), E. reflexivity.
    + assert (Hw : rev cs ++ [c] = list_ascii_of_string w).
      { change (rev (c :: cs) = list_ascii_of_string w). rewrite <- E. apply rev_involutive. }
      simpl. rewrite Hw, string_of_list_ascii_of_string. f_equal.
      exact (IH Hg').
Qed.

Lemma py_slice_nonneg {A} (l : list A) (a b : Z) :
  0 <= a -> 0 <= b ->
  py_slice l a b = take (Z.to_nat (Z.min b (Z.of_nat (length l))) -
                         Z.to_nat (Z.min a (Z.of_nat (length l))))
                        (drop (Z.to_nat (Z.min a (Z.of_nat (length l)))) l).
Proof. intros Ha Hb. unfold py_slice, py_norm_index. zcase; try lia. reflexivity. Qed.

Lemma py_slice_app {A} (l : list A) (a b c : Z) :
  0 <= a <= b -> b <= c -> py_slice l a b ++ py_slice l b c = py_slice l a c.
Proof.
  intros Hab Hbc. rewrite !py_slice_nonneg by lia.
  set (A' := Z.to_nat (Z.min a (Z.of_nat (length l)))).
  set (B' := Z.to_nat (Z.min b (Z.of_nat (length l)))).
  set (C' := Z.to_nat (Z.min c (Z.of_nat (length l)))).
  assert (HAB : (A' <= B')%nat) by lia. assert (HBC : (B' <= C')%nat) by lia.
  replace (drop B' l) with (drop (B' - A') (drop A' l)) by (rewrite drop_drop; f_equal; lia).
  rewrite take_take_drop. f_equal. lia.
Qed.

Lemma py_slice_empty {A} (l : list A) (b c : Z) :
  0 <= c <= b -> py_slice l b c = [].
Proof.
  intros Hcb. rewrite py_slice_nonneg by lia.
  replace (Z.to_nat (Z.min c (Z.of_nat (length l))) - Z.to_nat (Z.min b (Z.of_nat (length l))))%nat
    with 0%nat by lia.
  reflexivity.
Qed.

Lemma py_slice_length_le {A} (l : list A) (a b : Z) :
  0 <= a -> 0 <= b -> (length (py_slice l a b) <= Z.to_nat (b - a))%nat.
Proof. intros Ha Hb. rewrite py_slice_nonneg, length_take by lia. lia. Qed.

Lemma py_slice_infix {A} (l : list A) (a b : Z) :
  exists pre post, l = pre ++ py_slice l a b ++ post.
Proof.
  assert (H : forall j k : nat, exists pre post, l = pre ++ take k (drop j l) ++ post).
  { intros j k. exists (take j l), (drop k (drop j l)). rewrite !take_drop. reflexivity. }
  unfold py_slice. apply H.
Qed.

Lemma Forall_py_slice {A} (P : A -> Prop) (l : list A) (a b : Z) :
  Forall P l -> Forall P (py_slice l a b).
Proof. intros H. unfold py_slice. apply Forall_take, Forall_drop, H. Qed.

Lemma kwic_slices (words : list string) (wi kw cw : Z) :
  0 <= wi -> 0 <= kw -> 0 <= cw -> Forall split_word words ->
  let L := py_slice words (Z.max 0 (wi - cw)) wi in
  let K := py_slice words wi (wi + kw) in
  let R := py_slice words (wi + kw) (Z.min (Z.of_nat (length words)) (wi + kw + cw)) in
  py_split (py_join " " L) = L /\ py_split (py_join " " K) = K /\
  py_split (py_join " " R) = R /\
  (length L <= Z.to_nat cw)%nat /\ (length R <= Z.to_nat cw)%nat /\
  (length K <= Z.to_nat kw)%nat /\
  exists pre post, words = pre ++ (L ++ K ++ R) ++ post.
Proof.
  intros Hwi Hkw Hcw Hw L K R.
  split; [apply py_split_join, Forall_py_slice, Hw|].
  split; [apply py_split_join, Forall_py_slice, Hw|].
  split; [apply py_split_join, Forall_py_slice, Hw|].
  split; [eapply Nat.le_trans; [apply py_slice_length_le; lia|lia]|].
  split; [eapply Nat.le_trans; [apply py_slice_length_le; lia|lia]|].
  split; [eapply Nat.le_trans; [apply py_slice_length_le; lia|lia]|].
  unfold L, K, R.
  destruct (Z.le_gt_cases (wi + kw) (Z.min (Z.of_nat (length words)) (wi + kw + cw))).
  - rewrite (py_slice_app words wi (wi + kw)) by lia.
    rewrite (py_slice_app words (Z.max 0 (wi - cw)) wi) by lia.
    apply py_slice_infix.
  - rewrite (py_slice_empty words (wi + kw)) by lia. rewrite app_nil_r.
    rewrite (py_slice_app words (Z.max 0 (wi - cw)) wi) by lia.
    apply py_slice_infix.
Qed.

(** X12: with [context_words >= 0], every entry of [concordance] comes from
    one of the searched rows; its left and right contexts hold at most
    [context_words] words each, its keyword at most as many words as the
    searched word; and left context, keyword and right context are,
    together, a run of consecutive words of the turn's text. *)
Theorem concordance_context_bounds (word : string) (cw : Z) (rows : list search_row)
    (k : kwic) :
  0 <= cw -> k ∈ concordance word cw rows ->
  kwic_row k ∈ rows /\
  (length (py_split (left_context k)) <= Z.to_nat cw)%nat /\
  (length (py_split (right_context k)) <= Z.to_nat cw)%nat /\
  (length (py_split (keyword k)) <= length (py_split word))%nat /\
  exists pre post, py_split (sr_turn_text (kwic_row k)) =
    pre ++ (py_split (left_context k) ++ py_split (keyword k) ++
            py_split (right_context k)) ++ post.
Proof.
  intros Hcw Hk. unfold concordance in Hk.
  apply list_elem_of_omap in Hk as (row & Hrow & Hf).
  unfold kwic_of_row in Hf. cbv zeta in Hf.
  destruct (re_search_icase word (sr_turn_text row)) as [cp|]; [|discriminate].
  injection Hf as <-. cbn [left_context keyword right_context kwic_row].
  set (wi0 := Z.of_nat (length (py_split (py_prefix (sr_turn_text row) cp))) - 1).
  set (wi := if wi0 <? 0 then 0 else wi0).
  assert (Hwi : 0 <= wi) by (unfold wi; destruct (Z.ltb_spec wi0 0); lia).
  pose proof (kwic_slices (py_split (sr_turn_text row)) wi
                (Z.of_nat (length (py_split word))) cw Hwi ltac:(lia) Hcw
                (py_split_words _)) as H.
  cbv zeta in H. destruct H as (HL & HK & HR & HlL & HlR & HlK & Hinf).
  rewrite HL, HK, HR. split; [exact Hrow|].
  split; [exact HlL|]. split; [exact HlR|]. split; [|exact Hinf].
  rewrite Nat2Z.id in HlK. exact HlK.
Qed.
(** ** Audio estimation: lemmas *)












Section ConcordanceExamples.

Lemma concordance_context_bounds_witness :
  exists k, 0 <= 2 /\ k ∈ concordance "fox" 2 [kwic_fox_row] /\
    (length (py_split (left_context k)) <= 2)%nat.
Proof.
  exists (mkKwic "the quick" "brown" "fox jumps" kwic_fox_row).
  assert (Hk : mkKwic "the quick" "brown" "fox jumps" kwic_fox_row
               ∈ concordance "fox" 2 [kwic_fox_row]).
  { assert (E : concordance "fox" 2 [kwic_fox_row]
                = [mkKwic "the quick" "brown" "fox jumps" kwic_fox_row])
      by (vm_compute; reflexivity).
    rewrite E. apply list_elem_of_singleton. reflexivity. }
  split; [lia|]. split; [exact Hk|].
  destruct (concordance_context_bounds "fox" 2 [kwic_fox_row] _ ltac:(lia) Hk)
    as (_ & Hl & _).
  exact Hl.
Defined.


End ConcordanceExamples.


(** ** Trimmed time ranges: lemmas *)

Lemma clamp_start_idem (s : Q) :
  (if Qlt_le_dec (if Qlt_le_dec s 0 then 0%Q else s) 0 then 0%Q
   else if Qlt_le_dec s 0 then 0%Q else s)
  = (if Qlt_le_dec s 0 then 0%Q else s).
Proof.
  destruct (Qlt_le_dec s 0) as [H|H].
  - destruct (Qlt_le_dec 0 0) as [H'|H']; [exfalso; apply (Qlt_irrefl 0 H')|reflexivity].
  - destruct (Qlt_le_dec s 0) as [H'|H']; [exfalso; apply (Qlt_not_le _ _ H' H)|reflexivity].
Qed.

Lemma clamp_end_idem (d e : Q) :
  (if Qlt_le_dec d (if Qlt_le_dec d e then d else e) then d
   else if Qlt_le_dec d e then d else e)
  = (if Qlt_le_dec d e then d else e).
Proof.
  destruct (Qlt_le_dec d e) as [H|H].
  - destruct (Qlt_le_dec d d) as [H'|H']; [exfalso; apply (Qlt_irrefl d H')|reflexivity].
  - destruct (Qlt_le_dec d e) as [H'|H']; [exfalso; apply (Qlt_not_le _ _ H' H)|reflexivity].
Qed.

Lemma get_turns_by_time_range_clamp (overlaps_with : Turn -> Turn -> bool)
    (episode : Episode) (s e : Q) (b : TimeRangeBehavior) :
  get_turns_by_time_range overlaps_with episode
    (if Qlt_le_dec s 0 then 0%Q else s)
    (if Qlt_le_dec (duration_seconds episode) e then duration_seconds episode else e) b
  = get_turns_by_time_range overlaps_with episode s e b.
Proof.
  unfold get_turns_by_time_range. destruct (ep_turns episode); [|reflexivity].
  rewrite clamp_start_idem, clamp_end_idem. reflexivity.
Qed.

Lemma trim_entry_spec (b : TimeRangeBehavior) (s e : Q) (t : Turn) :
  let x := trim_entry b s e t in
  tt_turn x = t /\ tt_trimmed_text x = t_text t /\ tt_original_text x = t_text t /\
  (tt_was_trimmed x = false ->
     tt_trimmed_start x = t_start_time t /\ tt_trimmed_end x = t_end_time t) /\
  (tt_was_trimmed x = true -> b = INCLUDE_PARTIAL) /\
  (b = INCLUDE_PARTIAL ->
     (s <= tt_trimmed_start x)%Q /\ (tt_trimmed_end x <= e)%Q /\
     (t_start_time t <= tt_trimmed_start x)%Q /\ (tt_trimmed_end x <= t_end_time t)%Q).
Proof.
  cbv zeta. destruct b; simpl.
  - repeat split; discriminate.
  - destruct (Qlt_le_dec (t_start_time t) s) as [H1|H1]; simpl.
    + repeat split; try discriminate.
      * apply Q.le_max_r.
      * apply Q.le_min_r.
      * apply Q.le_max_l.
      * apply Q.le_min_l.
    + destruct (Qlt_le_dec e (t_end_time t)) as [H2|H2]; simpl.
      * repeat split; try discriminate.
        -- apply Q.le_max_r.
        -- apply Q.le_min_r.
        -- apply Q.le_max_l.
        -- apply Q.le_min_l.
      * repeat split; try discriminate; try assumption; apply Qle_refl.
  - repeat split; discriminate.
Qed.

(** ** Speaker name index: lemmas *)

Lemma py_isspace_lower (c : ascii) : py_isspace (py_lower_char c) = py_isspace c.
Proof. destruct c as [[] [] [] [] [] [] [] []]; reflexivity. Qed.

Lemma lstrip_map_lower (l : list ascii) :
  lstrip_chars (map py_lower_char l) = map py_lower_char (lstrip_chars l).
Proof.
  induction l as [|c l IH]; simpl; [reflexivity|].
  rewrite py_isspace_lower. destruct (py_isspace c); [exact IH|reflexivity].
Qed.

Lemma reverse_map_ascii (f : ascii -> ascii) (l : list ascii) :
  reverse (map f l) = map f (reverse l).
Proof. unfold reverse. rewrite !rev_append_rev, !app_nil_r, map_rev. reflexivity. Qed.

(** [s.lower().strip()] is [s.strip().lower()]. *)
Lemma py_strip_lower (s : string) : py_strip (py_lower s) = py_lower (py_strip s).
Proof.
  unfold py_strip, py_lower. rewrite !list_ascii_of_string_of_list_ascii.
  unfold rstrip_chars. rewrite lstrip_map_lower, reverse_map_ascii, lstrip_map_lower,
    reverse_map_ascii. reflexivity.
Qed.

Section SpeakerIndexLemmas.
Context `{PyBuiltins}.

Lemma speaker_name_entry_not_none (role eid pid : string) (name : pyval) :
  name <> PNone ->
  speaker_name_entry role eid pid name =
    (if String.eqb (py_strip (py_str name)) "" then []
     else [mkSpeakerNameRow (py_lower (py_strip (py_str name))) (py_strip (py_str name))
             role eid pid]).
Proof. destruct name; [congruence|reflexivity..]. Qed.

Lemma speaker_name_entries_in (role eid pid : string) (names : pyval)
    (x : speaker_name_row) :
  In x (speaker_name_entries role eid pid names) ->
  name_normalized x = py_lower (name_original x) /\ name_original x <> "" /\
  py_strip (name_original x) = name_original x /\
  sn_role x = role /\ sn_episode_id x = eid /\ sn_podcast_id x = pid.
Proof.
  unfold speaker_name_entries. intros Hx. apply in_flat_map in Hx as [name [_ Hx]].
  assert (Hn : name <> PNone) by (intros ->; simpl in Hx; contradiction).
  rewrite speaker_name_entry_not_none in Hx by exact Hn.
  destruct (String.eqb (py_strip (py_str name)) "") eqn:E; [contradiction|].
  destruct Hx as [<-|[]]. simpl. repeat split.
  - apply String.eqb_neq, E.
  - apply py_strip_idem.
Qed.

Lemma build_speaker_name_index_sound (rows : list catalog_names_row)
    (x : speaker_name_row) :
  In x (build_speaker_name_index rows) ->
  name_normalized x = py_lower (name_original x) /\ name_original x <> "" /\
  py_strip (name_original x) = name_original x /\
  (sn_role x = "host" \/ sn_role x = "guest") /\
  exists r, In r rows /\ sn_episode_id x = cn_episode_id r /\
            sn_podcast_id x = cn_podcast_id r.
Proof.
  unfold build_speaker_name_index. intros Hx. apply in_flat_map in Hx as [r [Hr Hx]].
  apply in_app_or in Hx as [Hx|Hx];
    destruct (speaker_name_entries_in _ _ _ _ x Hx) as (H1 & H2 & H3 & H4 & H5 & H6);
    repeat split; try assumption; eauto.
Qed.

Lemma speaker_name_entries_complete (role eid pid : string) (names : pyval)
    (l : list pyval) (name : pyval) :
  names = PList l -> In name l -> name <> PNone -> py_strip (py_str name) <> "" ->
  In (mkSpeakerNameRow (py_lower (py_strip (py_str name))) (py_strip (py_str name))
        role eid pid)
     (speaker_name_entries role eid pid names).
Proof.
  intros -> Hin Hn Hs. unfold speaker_name_entries. apply in_flat_map.
  exists name. split; [exact Hin|].
  rewrite speaker_name_entry_not_none by exact Hn.
  destruct (String.eqb (py_strip (py_str name)) "") eqn:E.
  - apply String.eqb_eq in E. contradiction.
  - left. reflexivity.
Qed.

Lemma build_speaker_name_index_complete (rows : list catalog_names_row)
    (r : catalog_names_row) (l : list pyval) (name : pyval) (role : string) :
  In r rows -> In name l -> name <> PNone -> py_strip (py_str name) <> "" ->
  (cn_host_predicted_names r = PList l /\ role = "host" \/
   cn_guest_predicted_names r = PList l /\ role = "guest") ->
  In (mkSpeakerNameRow (py_lower (py_strip (py_str name))) (py_strip (py_str name))
        role (cn_episode_id r) (cn_podcast_id r))
     (build_speaker_name_index rows).
Proof.
  intros Hr Hin Hn Hs Hrole. unfold build_speaker_name_index. apply in_flat_map.
  exists r. split; [exact Hr|]. apply in_or_app.
  destruct Hrole as [[Hl ->]|[Hl ->]]; [left|right];
    eapply speaker_name_entries_complete; eassumption.
Qed.

End SpeakerIndexLemmas.

Lemma df_head_sublist {A} (n : Z) (l : list A) : sublist (df_head n l) l.
Proof.
  unfold df_head. destruct (Z.leb 0 n); apply sublist_take.
Qed.

Lemma sublist_map_list {A B} (f : A -> B) (l1 l2 : list A) :
  sublist l1 l2 -> sublist (map f l1) (map f l2).
Proof. induction 1; simpl; constructor; assumption. Qed.

Lemma df_head_all {A} (n : Z) (l : list A) :
  Z.of_nat (length l) <= n -> df_head n l = l.
Proof.
  intros Hn. unfold df_head. destruct (Z.leb_spec 0 n); [|lia].
  apply take_ge. lia.
Qed.

(** ** Trimmed time ranges and the speaker name index *)

(** X14: [get_turns_by_time_range_with_trimming] raises [RuntimeError] on
    an episode whose turns are not loaded; otherwise it returns one entry
    per turn of [get_turns_by_time_range] on the same arguments, in order,
    with both texts the turn's text; only [INCLUDE_PARTIAL] marks an entry
    trimmed, an untrimmed entry keeps the turn's times, and under
    [INCLUDE_PARTIAL] every entry's trimmed interval lies inside the turn,
    inside the requested range and inside [0, duration_seconds]. *)
Theorem get_turns_by_time_range_with_trimming_spec
    (overlaps_with : Turn -> Turn -> bool) (episode : Episode) (s e : Q)
    (b : TimeRangeBehavior) :
  (ep_turns episode = None ->
   get_turns_by_time_range_with_trimming overlaps_with episode s e b = inl RuntimeError) /\
  (forall res,
     get_turns_by_time_range_with_trimming overlaps_with episode s e b = inr res ->
     get_turns_by_time_range overlaps_with episode s e b = inr (map tt_turn res) /\
     Forall (fun x =>
       tt_trimmed_text x = t_text (tt_turn x) /\
       tt_original_text x = t_text (tt_turn x) /\
       (tt_was_trimmed x = false ->
          tt_trimmed_start x = t_start_time (tt_turn x) /\
          tt_trimmed_end x = t_end_time (tt_turn x)) /\
       (tt_was_trimmed x = true -> b = INCLUDE_PARTIAL) /\
       (b = INCLUDE_PARTIAL ->
          (0 <= tt_trimmed_start x)%Q /\ (s <= tt_trimmed_start x)%Q /\
          (tt_trimmed_end x <= e)%Q /\ (tt_trimmed_end x <= duration_seconds episode)%Q /\
          (t_start_time (tt_turn x) <= tt_trimmed_start x)%Q /\
          (tt_trimmed_end x <= t_end_time (tt_turn x))%Q)) res) /\
  (forall err,
     get_turns_by_time_range_with_trimming overlaps_with episode s e b = inl err ->
     get_turns_by_time_range overlaps_with episode s e b = inl err).
Proof.
  unfold get_turns_by_time_range_with_trimming. split.
  - intros Hn. rewrite Hn. reflexivity.
  - destruct (ep_turns episode) as [ts|] eqn:Ht.
    2:{ split; [intros; discriminate|]. intros err Herr.
        unfold get_turns_by_time_range. rewrite Ht. injection Herr as <-. reflexivity. }
    rewrite get_turns_by_time_range_clamp.
    assert (Hs0 : (0 <= (if Qlt_le_dec s 0 then 0%Q else s))%Q).
    { destruct (Qlt_le_dec s 0); [apply Qle_refl|assumption]. }
    assert (Hss : (s <= (if Qlt_le_dec s 0 then 0%Q else s))%Q).
    { destruct (Qlt_le_dec s 0); [apply Qlt_le_weak; assumption|apply Qle_refl]. }
    assert (Hee : ((if Qlt_le_dec (duration_seconds episode) e
                    then duration_seconds episode else e) <= e)%Q).
    { destruct (Qlt_le_dec (duration_seconds episode) e);
        [apply Qlt_le_weak; assumption|apply Qle_refl]. }
    assert (Hed : ((if Qlt_le_dec (duration_seconds episode) e
                    then duration_seconds episode else e) <= duration_seconds episode)%Q).
    { destruct (Qlt_le_dec (duration_seconds episode) e); [apply Qle_refl|assumption]. }
    revert Hs0 Hss Hee Hed.
    generalize (if Qlt_le_dec s 0 then 0%Q else s) as s'.
    generalize (if Qlt_le_dec (duration_seconds episode) e
                then duration_seconds episode else e) as e'.
    intros e' s' Hs0 Hss Hee Hed.
    destruct (get_turns_by_time_range overlaps_with episode s e b) as [err|turns].
    + split; [intros; discriminate|]. intros err' Herr. injection Herr as <-. reflexivity.
    + split; [|intros; discriminate]. intros res Hres. injection Hres as <-. split.
      * rewrite List.map_map. f_equal. rewrite <- (List.map_id turns) at 1.
        apply List.map_ext. intros t. symmetry. apply (trim_entry_spec b s' e' t).
      * apply List.Forall_forall. intros x Hx. apply List.in_map_iff in Hx as [t [<- _]].
        destruct (trim_entry_spec b s' e' t) as (E1 & E2 & E3 & E4 & E5 & E6).
        rewrite E1. split; [exact E2|]. split; [exact E3|].
        split; [exact E4|]. split; [exact E5|].
        intros Hb. destruct (E6 Hb) as (F1 & F2 & F3 & F4).
        repeat split; try assumption.
        -- apply (Qle_trans _ _ _ Hs0 F1).
        -- apply (Qle_trans _ _ _ Hss F1).
        -- apply (Qle_trans _ _ _ F2 Hee).
        -- apply (Qle_trans _ _ _ F2 Hed).
Qed.

(** X15: every row [build_speaker_name_index] writes has a non-empty,
    already stripped [name_original], [name_normalized] its lower-case
    form, role [host] or [guest], and the episode and podcast ids of a
    catalog row; conversely every non-[None] name of a row's host (guest)
    list that is not blank after [str(name).strip()] gets a row with role
    [host] ([guest]) and that row's ids. *)
Theorem build_speaker_name_index_rows `{PyBuiltins} (rows : list catalog_names_row) :
  (forall x, In x (build_speaker_name_index rows) ->
     name_normalized x = py_lower (name_original x) /\ name_original x <> "" /\
     py_strip (name_original x) = name_original x /\
     (sn_role x = "host" \/ sn_role x = "guest") /\
     exists r, In r rows /\ sn_episode_id x = cn_episode_id r /\
               sn_podcast_id x = cn_podcast_id r) /\
  (forall r l name role,
     In r rows -> In name l -> name <> PNone -> py_strip (py_str name) <> "" ->
     (cn_host_predicted_names r = PList l /\ role = "host" \/
      cn_guest_predicted_names r = PList l /\ role = "guest") ->
     In (mkSpeakerNameRow (py_lower (py_strip (py_str name))) (py_strip (py_str name))
           role (cn_episode_id r) (cn_podcast_id r))
        (build_speaker_name_index rows)).
Proof.
  split.
  - apply build_speaker_name_index_sound.
  - intros r l name role. apply build_speaker_name_index_complete.
Qed.

(** X16: [search_by_speaker_name] raises [IndexNotBuiltError] when the
    speaker index file is missing; a substring search ([exact=False])
    whose [name.lower().strip()] is not a valid regular expression raises
    [re.error]; otherwise it returns at most [limit] records (for
    [limit >= 0]), each the projection of an index row, in index order,
    whose [name_normalized] is [name.lower().strip()] for an exact search
    and whose role is [role.lower()] when a non-empty role is given. *)
Theorem search_by_speaker_name_spec (re_compile_ok : string -> bool)
    (re_search : string -> string -> bool)
    (index : list speaker_name_row) (name : string) (role : option string)
    (exact : bool) (limit : Z) :
  search_by_speaker_name re_compile_ok re_search None name role exact limit
    = inl IndexNotBuiltError /\
  (exact = false -> re_compile_ok (py_strip (py_lower name)) = false ->
   search_by_speaker_name re_compile_ok re_search (Some index) name role exact limit
     = inl (PyErr ReError)) /\
  ((exact = true \/ re_compile_ok (py_strip (py_lower name)) = true) ->
  exists res,
    search_by_speaker_name re_compile_ok re_search (Some index) name role exact limit
      = inr res /\
    sublist res (map speaker_result index) /\
    (0 <= limit -> (length res <= Z.to_nat limit)%nat) /\
    forall y, In y res -> exists x, In x index /\ speaker_result x = y /\
      (exact = true -> name_normalized x = py_strip (py_lower name)) /\
      (forall r, role = Some r -> r <> "" -> sn_role x = py_lower r)).
Proof.
  split; [reflexivity|]. split.
  { intros -> Hc. simpl. rewrite Hc. reflexivity. }
  intros Hok.
  assert (Hc : negb exact && negb (re_compile_ok (py_strip (py_lower name))) = false).
  { destruct Hok as [-> | ->]; [reflexivity|apply andb_false_r]. }
  unfold search_by_speaker_name. cbv zeta. rewrite Hc.
  eexists. split; [reflexivity|].
  set (l := List.filter _ index). split; [|split].
  - apply sublist_map_list. etrans; [apply df_head_sublist|].
    apply sublist_filter_self.
  - intros Hl. rewrite length_map. unfold df_head.
    destruct (Z.leb_spec 0 limit); [|lia]. rewrite length_take. lia.
  - intros y Hy. apply List.in_map_iff in Hy as [x [<- Hx]].
    apply list_elem_of_In, (fun H => elem_of_sublist _ _ _ H (df_head_sublist _ _)),
      list_elem_of_In in Hx.
    apply List.filter_In in Hx as [Hx Hm]. exists x. split; [exact Hx|].
    split; [reflexivity|]. unfold speaker_mask in Hm.
    apply andb_true_iff in Hm as [Hn Hr]. split.
    + intros ->. apply String.eqb_eq, Hn.
    + intros r -> Hne. apply String.eqb_neq in Hne. rewrite Hne in Hr.
      apply String.eqb_eq, Hr.
Qed.

(** X17: a name [build_speaker_name_index] takes from a catalog row's host
    (guest) list is found again by [search_by_speaker_name] on that index
    with the name as stored in the catalog, [exact=True] and role [host]
    ([guest]), as a record with the row's episode and podcast ids, once
    [limit] is at least the index size. *)
Theorem speaker_name_index_search_roundtrip `{PyBuiltins}
    (re_compile_ok : string -> bool) (re_search : string -> string -> bool)
    (rows : list catalog_names_row)
    (r : catalog_names_row) (l : list pyval) (name : pyval) (role : string)
    (limit : Z) :
  In r rows -> In name l -> name <> PNone -> py_strip (py_str name) <> "" ->
  (cn_host_predicted_names r = PList l /\ role = "host" \/
   cn_guest_predicted_names r = PList l /\ role = "guest") ->
  Z.of_nat (length (build_speaker_name_index rows)) <= limit ->
  exists res,
    search_by_speaker_name re_compile_ok re_search (Some (build_speaker_name_index rows))
      (py_str name) (Some role) true limit = inr res /\
    In (cn_episode_id r, cn_podcast_id r, py_strip (py_str name), role) res.
Proof.
  intros Hr Hin Hn Hs Hrole Hlim.
  pose proof (build_speaker_name_index_complete rows r l name role Hr Hin Hn Hs Hrole)
    as Hx.
  eexists. split; [reflexivity|].
  assert (Hf : (length (List.filter
      (speaker_mask re_search (py_strip (py_lower (py_str name))) (Some role) true)
      (build_speaker_name_index rows)) <= length (build_speaker_name_index rows))%nat).
  { apply List.filter_length_le. }
  rewrite df_head_all by lia.
  apply (List.in_map speaker_result _
           (mkSpeakerNameRow (py_lower (py_strip (py_str name))) (py_strip (py_str name))
              role (cn_episode_id r) (cn_podcast_id r))).
  apply List.filter_In. split; [exact Hx|].
  unfold speaker_mask. simpl. rewrite py_strip_lower, String.eqb_refl. simpl.
  destruct Hrole as [[_ ->]|[_ ->]]; reflexivity.
Qed.

Section SpeakerExamples.
#[local] Existing Instance example_builtins.

Lemma get_turns_by_time_range_with_trimming_spec_witness :
  exists res,
    get_turns_by_time_range_with_trimming (fun _ _ => true) example_turn_episode 5 20
      INCLUDE_PARTIAL = inr res /\
    get_turns_by_time_range (fun _ _ => true) example_turn_episode 5 20 INCLUDE_PARTIAL
      = inr (map tt_turn res).
Proof.
  eexists. split; [vm_compute; reflexivity|].
  exact (proj1 (proj1 (proj2 (get_turns_by_time_range_with_trimming_spec
    (fun _ _ => true) example_turn_episode 5 20 INCLUDE_PARTIAL)) _
    ltac:(vm_compute; reflexivity))).
Defined.

Lemma build_speaker_name_index_rows_witness :
  In (mkSpeakerNameRow "alice smith" "Alice Smith" "host" "e1" "p1")
     (build_speaker_name_index example_name_rows) /\
  py_strip "Alice Smith" = "Alice Smith".
Proof.
  assert (Hx : In (mkSpeakerNameRow "alice smith" "Alice Smith" "host" "e1" "p1")
                 (build_speaker_name_index example_name_rows)).
  { exact (proj2 (build_speaker_name_index_rows example_name_rows)
      (mkCatalogNamesRow "e1" "p1" (PList [PStr " Alice Smith "; PNone; PStr "  "])
         (PList [PStr "Bob"]))
      [PStr " Alice Smith "; PNone; PStr "  "] (PStr " Alice Smith ") "host"
      ltac:(left; reflexivity) ltac:(left; reflexivity) ltac:(discriminate)
      ltac:(vm_compute; discriminate) ltac:(left; split; reflexivity)). }
  split; [exact Hx|].
  exact (proj1 (proj2 (proj2 (proj1 (build_speaker_name_index_rows example_name_rows) _ Hx)))).
Defined.

Lemma search_by_speaker_name_spec_witness :
  search_by_speaker_name (fun _ => false) (fun _ _ => false)
    (Some (build_speaker_name_index example_name_rows)) "C++" None false 10
    = inl (PyErr ReError) /\
  exists res,
    search_by_speaker_name (fun _ => false) (fun _ _ => false)
      (Some (build_speaker_name_index example_name_rows)) "ALICE SMITH " None true 10
      = inr res /\
    (0 <= 10 -> (length res <= Z.to_nat 10)%nat).
Proof.
  split.
  - exact (proj1 (proj2 (search_by_speaker_name_spec (fun _ => false) (fun _ _ => false)
      (build_speaker_name_index example_name_rows) "C++" None false 10))
      eq_refl ltac:(vm_compute; reflexivity)).
  - destruct (proj2 (proj2 (search_by_speaker_name_spec (fun _ => false) (fun _ _ => false)
      (build_speaker_name_index example_name_rows) "ALICE SMITH " None true 10))
      (or_introl eq_refl)) as [res (Hres & _ & Hlen & _)].
    exists res. split; [exact Hres|exact Hlen].
Defined.

Lemma speaker_name_index_search_roundtrip_witness :
  exists res,
    search_by_speaker_name (fun _ => true) (fun _ _ => false)
      (Some (build_speaker_name_index example_name_rows))
      " Alice Smith " (Some "host") true 10 = inr res /\
    In ("e1", "p1", "Alice Smith", "host") res.
Proof.
  exact (speaker_name_index_search_roundtrip (fun _ => true) (fun _ _ => false)
    example_name_rows
    (mkCatalogNamesRow "e1" "p1" (PList [PStr " Alice Smith "; PNone; PStr "  "])
       (PList [PStr "Bob"]))
    [PStr " Alice Smith "; PNone; PStr "  "] (PStr " Alice Smith ") "host" 10
    ltac:(left; reflexivity) ltac:(left; reflexivity) ltac:(discriminate)
    ltac:(vm_compute; discriminate) ltac:(left; split; reflexivity)
    ltac:(vm_compute; discriminate)).
Defined.

End SpeakerExamples.


(** ** The Phase 2 turn pass: lemmas *)

Lemma append_table_same {R} (files : gmap string (list R)) (pid : string) (rows : list R) :
  default [] (append_table files pid rows !! pid) = default [] (files !! pid) ++ rows.
Proof.
  destruct rows as [|r rows]; simpl.
  - rewrite app_nil_r. reflexivity.
  - rewrite lookup_insert_eq. destruct (files !! pid); reflexivity.
Qed.

Lemma append_table_other {R} (files : gmap string (list R)) (pid q : string) (rows : list R) :
  pid <> q -> append_table files pid rows !! q = files !! q.
Proof.
  intros Hne. destruct rows as [|r rows]; simpl; [reflexivity|].
  apply lookup_insert_ne. exact Hne.
Qed.

Lemma flush_podcast_buffer (pid q : string) (st : phase2_state) :
  p2_buffer (flush_podcast pid st) q = if String.eqb pid q then ([], []) else p2_buffer st q.
Proof.
  unfold p2_buffer at 1. simpl. rewrite py_dict_get_set.
  destruct (String.eqb pid q); reflexivity.
Qed.

Lemma flush_podcast_text_files (pid : string) (st : phase2_state) :
  p2_text_files (flush_podcast pid st)
    = append_table (p2_text_files st) pid (fst (p2_buffer st pid)).
Proof. reflexivity. Qed.

Lemma flush_podcast_audio_files (pid : string) (st : phase2_state) :
  p2_audio_files (flush_podcast pid st)
    = append_table (p2_audio_files st) pid (snd (p2_buffer st pid)).
Proof. reflexivity. Qed.

Lemma flush_podcast_flushed (pid : string) (st : phase2_state) :
  p2_flushed_pids (flush_podcast pid st) = {[pid]} ∪ p2_flushed_pids st.
Proof. reflexivity. Qed.

Section Phase2Lemmas.
Context `{PyBuiltins}.
Variable mp3url_to_pid : gmap string string.
Variable text0 : gmap string (list turn_text_record).
Variable audio0 : gmap string (list turn_audio_record).

Lemma phase2_rows_for_snoc {R}
    (mk : string -> string -> string -> list (string * pyval) -> py_error + R)
    (seen : list (list (string * pyval))) (rec : list (string * pyval)) (q : string) :
  phase2_rows_for mk mp3url_to_pid (seen ++ [rec]) q
  = phase2_rows_for mk mp3url_to_pid seen q ++
    match phase2_route mp3url_to_pid rec with
    | Some (p, eid, mp3url) =>
        if String.eqb p q then
          match mk eid p mp3url rec with inr row => [row] | inl _ => [] end
        else []
    | None => []
    end.
Proof.
  induction seen as [|r seen IH]; simpl.
  - destruct (phase2_route mp3url_to_pid rec) as [[[p e] u]|]; [|reflexivity].
    destruct (String.eqb p q); [|reflexivity]. destruct (mk e p u rec); reflexivity.
  - rewrite IH. destruct (phase2_route mp3url_to_pid r) as [[[p e] u]|]; [|reflexivity].
    destruct (String.eqb p q); [|reflexivity]. destruct (mk e p u r); reflexivity.
Qed.

Lemma phase2_inv_init :
  phase2_inv mp3url_to_pid text0 audio0 (mkPhase2State [] [] ∅ text0 audio0 0 0 0) [].
Proof.
  intros q. cbv zeta. simpl. unfold p2_buffer. simpl. rewrite !app_nil_r.
  split; [reflexivity|]. split; [reflexivity|].
  split; [intros _; split; [reflexivity|]; split; [reflexivity|]; split; [set_solver|reflexivity]|].
  split; [set_solver|]. intros Hne. contradiction.
Qed.

Lemma flush_podcast_inv (pid : string) (st : phase2_state)
    (seen : list (list (string * pyval))) :
  phase2_inv mp3url_to_pid text0 audio0 st seen ->
  phase2_rows_for turn_text_record_of mp3url_to_pid seen pid <> [] ->
  phase2_inv mp3url_to_pid text0 audio0 (flush_podcast pid st) seen.
Proof.
  intros Hinv Hne q. specialize (Hinv q). cbv zeta in *.
  destruct Hinv as (I1 & I2 & I3 & I4 & I5).
  rewrite flush_podcast_buffer, flush_podcast_text_files, flush_podcast_audio_files,
    flush_podcast_flushed.
  destruct (String.eqb_spec pid q) as [<-|Hpq].
  - rewrite !append_table_same. simpl. rewrite !app_nil_r.
    split; [exact I1|]. split; [exact I2|].
    split; [intros Hn; contradiction|]. split; [intros _; exact Hne|].
    intros _. left. set_solver.
  - rewrite !append_table_other by exact Hpq.
    split; [exact I1|]. split; [exact I2|]. split.
    + intros Hr. destruct (I3 Hr) as (A & B & C & D).
      split; [exact A|]. split; [exact B|]. split; [set_solver|exact D].
    + split.
      * intros Hin. apply I4. set_solver.
      * intros Hr. destruct (I5 Hr) as [Hf|Hb]; [left; set_solver|right; exact Hb].
Qed.

Lemma phase2_step_inv (threshold : Z) (st st' : phase2_state)
    (seen : list (list (string * pyval))) (rec : list (string * pyval)) :
  phase2_inv mp3url_to_pid text0 audio0 st seen ->
  phase2_step threshold mp3url_to_pid st rec = inr st' ->
  phase2_inv mp3url_to_pid text0 audio0 st' (seen ++ [rec]).
Proof.
  intros Hinv Hstep. unfold phase2_step in Hstep.
  destruct (String.eqb (safe_str (py_get rec "mp3url") "") "") eqn:E.
  { injection Hstep as <-.
    assert (Hr : phase2_route mp3url_to_pid rec = None).
    { unfold phase2_route. rewrite E. reflexivity. }
    intros q. cbv zeta. rewrite !phase2_rows_for_snoc, Hr, !app_nil_r. exact (Hinv q). }
  destruct (mp3url_to_pid !! safe_str (py_get rec "mp3url") "") as [pid|] eqn:Hm.
  2:{ injection Hstep as <-.
      assert (Hr : phase2_route mp3url_to_pid rec = None).
      { unfold phase2_route. rewrite E, Hm. reflexivity. }
      intros q. cbv zeta. rewrite !phase2_rows_for_snoc, Hr, !app_nil_r. exact (Hinv q). }
  assert (Hr : phase2_route mp3url_to_pid rec =
    Some (pid, episode_id_from_mp3 (safe_str (py_get rec "mp3url") ""),
          safe_str (py_get rec "mp3url") "")).
  { unfold phase2_route. rewrite E, Hm. reflexivity. }
  revert Hr Hstep. cbv zeta.
  generalize (safe_str (py_get rec "mp3url") "") as u. intros u Hr Hstep.
  destruct (turn_text_record_of (episode_id_from_mp3 u) pid u rec) as [?|tr] eqn:Ht;
    [discriminate|].
  destruct (turn_audio_record_of (episode_id_from_mp3 u) pid u rec) as [?|ta] eqn:Ha;
    [discriminate|].
  injection Hstep as <-.
  match goal with
  | |- phase2_inv _ _ _ (if _ then flush_podcast _ ?s else ?s) _ => set (st' := s)
  end.
  assert (Hst : phase2_inv mp3url_to_pid text0 audio0 st' (seen ++ [rec])).
  { intros q. specialize (Hinv q). cbv zeta in *.
    destruct Hinv as (I1 & I2 & I3 & I4 & I5).
    rewrite !phase2_rows_for_snoc, Hr.
    assert (Hb : p2_buffer st' q =
      if String.eqb pid q
      then (fst (p2_buffer st pid) ++ [tr], snd (p2_buffer st pid) ++ [ta])
      else p2_buffer st q).
    { unfold p2_buffer at 1. simpl. rewrite py_dict_get_set.
      destruct (String.eqb pid q); reflexivity. }
    rewrite Hb. simpl.
    destruct (String.eqb_spec pid q) as [<-|Hpq]; simpl.
    - rewrite Ht, Ha, !app_assoc, I1, I2.
      split; [reflexivity|]. split; [reflexivity|].
      split; [intros Hn; apply app_eq_nil in Hn as [_ Hn]; discriminate|].
      split; [intros _ Hn; apply app_eq_nil in Hn as [_ Hn]; discriminate|].
      intros _. right. intros Hn. apply app_eq_nil in Hn as [_ Hn]. discriminate.
    - rewrite !app_nil_r. split; [exact I1|]. split; [exact I2|].
      split; [exact I3|]. split; [exact I4|exact I5]. }
  destruct (Z.leb threshold _); [|exact Hst].
  apply flush_podcast_inv; [exact Hst|].
  rewrite phase2_rows_for_snoc, Hr, String.eqb_refl, Ht.
  intros Hn. apply app_eq_nil in Hn as [_ Hn]. discriminate.
Qed.

Lemma phase2_loop_inv (threshold : Z) (records : list (list (string * pyval))) :
  forall st seen st',
  phase2_inv mp3url_to_pid text0 audio0 st seen ->
  phase2_loop threshold mp3url_to_pid records st = inr st' ->
  phase2_inv mp3url_to_pid text0 audio0 st' (seen ++ records).
Proof.
  induction records as [|rec records IH]; intros st seen st' Hinv Hloop; simpl in Hloop.
  - injection Hloop as <-. rewrite app_nil_r. exact Hinv.
  - destruct (phase2_step threshold mp3url_to_pid st rec) as [?|st1] eqn:Hs;
      [discriminate|].
    replace (seen ++ rec :: records) with ((seen ++ [rec]) ++ records)
      by (rewrite <- app_assoc; reflexivity).
    apply (IH st1); [apply (phase2_step_inv threshold st); assumption|exact Hloop].
Qed.

Lemma phase2_final_flush_go (seen : list (list (string * pyval))) (ks : list string) :
  forall st,
  phase2_inv mp3url_to_pid text0 audio0 st seen ->
  (forall q, In q ks \/ p2_buffer st q = ([], [])) ->
  let st' := fold_left (fun st pid =>
                match p2_buffer st pid with
                | ([], []) => st
                | _ => flush_podcast pid st
                end) ks st in
  phase2_inv mp3url_to_pid text0 audio0 st' seen /\ forall q, p2_buffer st' q = ([], []).
Proof.
  induction ks as [|k ks IH]; intros st Hinv Hcov; cbn [fold_left].
  - split; [exact Hinv|]. intros q. destruct (Hcov q) as [[]|Hq]. exact Hq.
  - assert (Hk : p2_buffer st k <> ([], []) ->
                 phase2_rows_for turn_text_record_of mp3url_to_pid seen k <> []).
    { intros Hb Hn. specialize (Hinv k). cbv zeta in Hinv.
      destruct Hinv as (_ & _ & I3 & _). apply Hb, (I3 Hn). }
    apply IH.
    + destruct (p2_buffer st k) as [[|x t] [|y a]] eqn:Hb;
        try exact Hinv; apply flush_podcast_inv; [exact Hinv| |exact Hinv| |exact Hinv|];
        apply Hk; try rewrite Hb; discriminate.
    + intros q. destruct (String.eqb_spec k q) as [<-|Hkq].
      * right. destruct (p2_buffer st k) as [[|x t] [|y a]] eqn:Hb;
          try exact Hb; rewrite flush_podcast_buffer, String.eqb_refl; reflexivity.
      * destruct (Hcov q) as [[Hq|Hq]|Hq]; [contradiction|left; exact Hq|right].
        destruct (p2_buffer st k) as [[|x t] [|y a]];
          try exact Hq; rewrite flush_podcast_buffer;
          apply String.eqb_neq in Hkq; rewrite Hkq; exact Hq.
Qed.

End Phase2Lemmas.

(** X18: after a run of [phase2_turns] that ends without an exception,
    the text and audio files of every podcast
    hold the rows they held before, followed by the rows built from the
    turn records routed to that podcast, in stream order, whatever the
    flush points; a podcast that got no record keeps its files untouched,
    and [flushed_pids] is exactly the set of podcasts that got a record. *)
Theorem phase2_turns_files `{PyBuiltins}
    (text_files : gmap string (list turn_text_record))
    (audio_files : gmap string (list turn_audio_record))
    (mp3url_to_pid : gmap string string) (records : list (list (string * pyval)))
    (pid : string) (st : phase2_state) :
  phase2_turns text_files audio_files mp3url_to_pid records = inr st ->
  let rows := phase2_rows_for turn_text_record_of mp3url_to_pid records pid in
  default [] (p2_text_files st !! pid) = default [] (text_files !! pid) ++ rows /\
  default [] (p2_audio_files st !! pid)
    = default [] (audio_files !! pid) ++
      phase2_rows_for turn_audio_record_of mp3url_to_pid records pid /\
  (rows = [] -> p2_text_files st !! pid = text_files !! pid /\
                p2_audio_files st !! pid = audio_files !! pid) /\
  (pid ∈ p2_flushed_pids st <-> rows <> []).
Proof.
  intros Hrun. cbv zeta. unfold phase2_turns in Hrun.
  destruct (phase2_loop TURN_FLUSH_THRESHOLD mp3url_to_pid records
              (mkPhase2State [] [] ∅ text_files audio_files 0 0 0)) as [?|st0] eqn:Hl;
    [discriminate|].
  injection Hrun as <-.
  pose proof (phase2_loop_inv mp3url_to_pid text_files audio_files TURN_FLUSH_THRESHOLD
    records _ [] st0 (phase2_inv_init mp3url_to_pid text_files audio_files) Hl) as Hloop.
  simpl in Hloop.
  unfold phase2_final_flush.
  destruct (phase2_final_flush_go mp3url_to_pid text_files audio_files records
              (map fst (p2_buffers st0)) st0 Hloop) as [Hf Hb].
  { intros q. unfold p2_buffer.
    destruct (py_dict_get (p2_buffers st0) q) as [b|] eqn:G; [left|right; reflexivity].
    apply (List.in_map fst _ (q, b)), py_dict_get_in, G. }
  specialize (Hf pid). cbv zeta in Hf. destruct Hf as (I1 & I2 & I3 & I4 & I5).
  rewrite Hb in I1, I2, I3, I5. simpl in I1, I2, I5. rewrite app_nil_r in I1, I2.
  split; [exact I1|]. split; [exact I2|]. split.
  - intros Hn. destruct (I3 Hn) as (A & B & _). split; [exact A|exact B].
  - split; [exact I4|]. intros Hn. destruct (I5 Hn) as [Hin|Hc]; [exact Hin|].
    exfalso. apply Hc. reflexivity.
Qed.

Section Phase2Examples.
#[local] Existing Instance example_builtins.

Lemma phase2_turns_files_witness :
  exists st,
  phase2_turns ∅ ∅ example_mp3_to_pid example_turn_records = inr st /\
  default [] (p2_text_files st !! "p1")
  = default [] ((∅ : gmap string (list turn_text_record)) !! "p1") ++
    phase2_rows_for turn_text_record_of example_mp3_to_pid example_turn_records "p1" /\
  length (phase2_rows_for turn_text_record_of example_mp3_to_pid example_turn_records "p1")
    = 2%nat.
Proof.
  set (st := match phase2_turns ∅ ∅ example_mp3_to_pid example_turn_records with
             | inr st => st
             | inl _ => mkPhase2State [] [] ∅ ∅ ∅ 0 0 0
             end).
  assert (Hrun : phase2_turns ∅ ∅ example_mp3_to_pid example_turn_records = inr st)
    by (unfold st; vm_compute; reflexivity).
  exists st. split; [exact Hrun|]. split; [|vm_compute; reflexivity].
  exact (proj1 (phase2_turns_files ∅ ∅ example_mp3_to_pid example_turn_records "p1" st Hrun)).
Defined.

End Phase2Examples.


(** X19: the classification properties of an episode are consistent: a
    solo episode is neither an interview nor a panel, no episode is both
    long-form and short-form, and an interview has guests. *)
Theorem episode_classification_exclusive (e : episode_meta) :
  ~ (is_solo e = true /\ is_interview e = true) /\
  ~ (is_solo e = true /\ is_panel e = true) /\
  ~ (is_long_form e = true /\ is_short_form e = true) /\
  (is_interview e = true -> has_guests e = true).
Proof.
  unfold is_solo, is_interview, is_panel, is_long_form, is_short_form, has_guests,
    num_hosts, num_guests.
  split; [|split; [|split]].
  - intros [Hs Hi]. apply andb_true_iff in Hs as [Hs1 Hs2], Hi as [Hi1 Hi2].
    apply Z.eqb_eq in Hs2. apply Z.leb_le in Hi2. lia.
  - intros [Hs Hp]. apply andb_true_iff in Hs as [Hs1 Hs2].
    apply Z.eqb_eq in Hs1, Hs2. apply Z.ltb_lt in Hp. lia.
  - destruct (Qlt_le_dec 30 (duration_minutes e)) as [H1|H1]; [|intros [Hf _]; discriminate].
    destruct (Qlt_le_dec (duration_minutes e) 10) as [H2|H2]; [|intros [_ Hf]; discriminate].
    intros _. lra.
  - intros Hi. apply andb_true_iff in Hi as [_ Hi]. apply Z.leb_le in Hi.
    apply Z.ltb_lt. lia.
Qed.

Lemma episode_classification_exclusive_witness :
  is_interview (mkEpisodeMeta 3600 ["Ann"] ["Bob"]) = true /\
  has_guests (mkEpisodeMeta 3600 ["Ann"] ["Bob"]) = true.
Proof.
  split; [reflexivity|].
  apply (proj2 (proj2 (proj2 (episode_classification_exclusive
    (mkEpisodeMeta 3600 ["Ann"] ["Bob"]))))).
  reflexivity.
Defined.

Lemma get_podcasts_by_hostname_index_witness :
  "p2" ∈ get_podcasts_by_hostname (build_set_index example_hostname_rows) "feeds.example.com".
Proof.
  apply (proj2 (get_podcasts_by_hostname_index example_hostname_rows
    "feeds.example.com" "p2")).
  right; left; reflexivity.
Defined.
